(** * VLSM IPv4 subnet allocator: a shallow embedding of [utils/vlsm.js]

    The JavaScript module exports [allocateVlsm], [calcMinPrefixForHosts] and
    [parseCidr]; the helpers [ipToInt], [intToIp], [maskFromPrefix],
    [wildcardFromPrefix] and [subnetInfo] are private to it.  Every function is
    translated below under its own name.

    Modelling conventions.
    - A JavaScript Number is a [num]: an integer-valued Number [Num z] or
      [NaN].  All arithmetic of the module stays on integers far below 2^53
      (sums of at most 2^32-sized blocks, products with powers of two), where
      double arithmetic is exact, so [Z] arithmetic is the arithmetic of the
      code.  Fractions and infinities are not represented: [parseInt] never
      yields a fraction and leaves the exact integers only for digit runs
      beyond 2^53, and the host-count validation rejects a fraction or an
      infinity exactly as it rejects [NaN].  The two zeros are one: -0
      behaves as 0 under [===], the comparisons and printing.
    - The 32-bit operators ([<<], [>>>], [&], [~]) convert their operands with
      ToInt32 / ToUint32 and are written out with [Z.modulo], [Z.shiftl],
      [Z.shiftr], [Z.land] and [Z.lnot].
    - A string is a [string] of code units below 256: the character with
      code [n] stands for the code unit [n].
    - [throw new Error(...)] is the [Err] branch of [result]; one constructor
      of [error] per [throw] site. *)

From Stdlib Require Import ZArith List Bool Lia.
From Stdlib Require Import Strings.String Strings.Ascii Numbers.DecimalString.
From Stdlib Require Import Sorting.Permutation Sorting.Sorted.
Import ListNotations.

Open Scope string_scope.
Open Scope Z_scope.

(** ** Numbers and the 32-bit operators *)

Inductive num : Type :=
  | Num (z : Z)
  | NaN.

Coercion Num : Z >-> num.

Definition two32 : Z := 4294967296.
Definition two31 : Z := 2147483648.

(** ToUint32: NaN maps to 0, an integer to its residue modulo 2^32. *)
Definition ToUint32 (n : num) : Z :=
  match n with
  | NaN => 0
  | Num z => z mod two32
  end.

(** ToInt32: the residue read as a two's complement 32-bit integer. *)
Definition ToInt32 (n : num) : Z :=
  let u := ToUint32 n in
  if u <? two31 then u else u - two32.

(** [a << b] *)
Definition shl (a b : num) : Z :=
  ToInt32 (Z.shiftl (ToInt32 a) (ToUint32 b mod 32)).

(** [a >>> b] *)
Definition ushr (a b : num) : Z :=
  Z.shiftr (ToUint32 a) (ToUint32 b mod 32).

(** [a & b] *)
Definition band (a b : num) : Z :=
  Z.land (ToInt32 a) (ToInt32 b).

(** [~a] *)
Definition bnot (a : num) : Z :=
  Z.lnot (ToInt32 a).

(** [a + b] and [a - b] on Numbers. *)
Definition add (a b : num) : num :=
  match a, b with
  | Num x, Num y => Num (x + y)
  | _, _ => NaN
  end.

Definition sub (a b : num) : num :=
  match a, b with
  | Num x, Num y => Num (x - y)
  | _, _ => NaN
  end.

(** [2 ** e]; the module only raises 2 to [32 - prefix] with the prefix in
    [0, 32] or NaN. *)
Definition pow2 (e : num) : num :=
  match e with
  | Num z => Num (2 ^ z)
  | NaN => NaN
  end.

(** [a === k] for an integer constant [k]. *)
Definition strictEq (a : num) (k : Z) : bool :=
  match a with
  | Num z => z =? k
  | NaN => false
  end.

(** [a < b] and [a > b]: false as soon as one side is NaN. *)
Definition lt (a b : num) : bool :=
  match a, b with
  | Num x, Num y => x <? y
  | _, _ => false
  end.

Definition gt (a b : num) : bool := lt b a.

(** ** Strings *)

(** [s.split(sep)] for a one-character separator. *)
Fixpoint split (sep : ascii) (s : string) : list string :=
  match s with
  | EmptyString => [EmptyString]
  | String c rest =>
      if Ascii.eqb c sep then EmptyString :: split sep rest
      else match split sep rest with
           | hd :: tl => String c hd :: tl
           | [] => [String c EmptyString]
           end
  end.

(** [l.join(sep)] on an array of strings. *)
Definition join (sep : string) (l : list string) : string :=
  String.concat sep l.

(** White space skipped by [parseInt]: TAB, LF, VT, FF, CR, SP and NBSP. *)
Definition isWhiteSpace (c : ascii) : bool :=
  let n := N_of_ascii c in
  (((9 <=? n) && (n <=? 13)) || (n =? 32) || (n =? 160))%N.

Fixpoint trimStart (s : string) : string :=
  match s with
  | EmptyString => EmptyString
  | String c rest => if isWhiteSpace c then trimStart rest else s
  end.

(** The value of a decimal digit character, if it is one. *)
Definition digitOf (c : ascii) : option Z :=
  let n := N_of_ascii c in
  if ((48 <=? n) && (n <=? 57))%N then Some (Z.of_N n - 48) else None.

(** The longest prefix of decimal digits, as digit values. *)
Fixpoint leadingDigits (s : string) : list Z :=
  match s with
  | EmptyString => []
  | String c rest =>
      match digitOf c with
      | Some d => d :: leadingDigits rest
      | None => []
      end
  end.

Definition digitsValue (ds : list Z) : Z :=
  fold_left (fun acc d => 10 * acc + d) ds 0.

(** [parseInt(s, 10)]: skip leading white space, read an optional sign, then
    the longest run of decimal digits; NaN when the run is empty. *)
Definition parseInt (s : string) : num :=
  let s1 := trimStart s in
  let '(sign, s2) :=
    match s1 with
    | String "-" rest => (-1, rest)
    | String "+" rest => (1, rest)
    | _ => (1, s1)
    end in
  match leadingDigits s2 with
  | [] => NaN
  | ds => Num (sign * digitsValue ds)
  end.

(** [String(n)] for an integer-valued Number. *)
Definition toString (z : Z) : string :=
  NilEmpty.string_of_int (Z.to_int z).

(** ** Address codec *)

(** [ip.split('.').reduce((acc, octet) => (acc << 8) + parseInt(octet, 10), 0) >>> 0] *)
Definition ipToInt (ip : string) : Z :=
  ushr (fold_left (fun (acc : num) octet => add (shl acc 8) (parseInt octet))
                  (split "." ip) (Num 0)) 0.

(** [[24, 16, 8, 0].map(shift => ((int >>> shift) & 0xFF)).join('.')] *)
Definition intToIp (int : Z) : string :=
  join "." (map (fun shift : Z => toString (band (ushr int shift) 255)) [24; 16; 8; 0]).

(** The constant [mask] of [maskFromPrefix] and [wildcardFromPrefix]:
    [prefix === 0 ? 0 : (0xFFFFFFFF << (32 - prefix)) >>> 0]. *)
Definition maskBits (prefix : num) : Z :=
  if strictEq prefix 0 then 0 else ushr (shl 4294967295 (sub 32 prefix)) 0.

(** The constant [wild] of [wildcardFromPrefix]: [(~mask) >>> 0]. *)
Definition wildBits (prefix : num) : Z :=
  ushr (bnot (maskBits prefix)) 0.

Definition maskFromPrefix (prefix : num) : string :=
  intToIp (maskBits prefix).

Definition wildcardFromPrefix (prefix : num) : string :=
  intToIp (wildBits prefix).

(** ** Errors *)

(** One constructor per [throw] of the module, with the values its message
    interpolates. *)
Inductive error : Type :=
  | E_InvalidCIDR                                   (* 'Invalid CIDR' *)
  | E_InvalidPrefix                                 (* 'Invalid prefix' *)
  | E_HostsNonNegative                              (* 'hosts must be non-negative integer' *)
  | E_CannotSatisfy                                 (* 'cannot satisfy host count' *)
  | E_HostRequirements                              (* 'host requirements must be positive integers' *)
  | E_RequirementsNeed (sumBlocks : Z) (primaryTotal : num)
                                                    (* 'Requirements need .. addresses but primary has ..' *)
  | E_CannotAllocate (requested prefix block : Z)   (* 'Cannot allocate subnet for .. hosts ..' *)
  | E_OutsidePrimary                                (* 'Allocated network falls outside primary' *)
  | E_Overlap (cidr_i cidr_j : string).             (* 'Overlap between .. and ..' *)

Inductive result (A : Type) : Type :=
  | Ok (a : A)
  | Err (e : error).

Arguments Ok {A} a.
Arguments Err {A} e.

Definition bind {A B : Type} (m : result A) (k : A -> result B) : result B :=
  match m with
  | Ok a => k a
  | Err e => Err e
  end.

Notation "x <- m ;; k" := (bind m (fun x => k))
  (at level 61, m at next level, right associativity).

(** [l.map(f)] where [f] may throw: the first exception aborts the map. *)
Fixpoint mapM {A B : Type} (f : A -> result B) (l : list A) : result (list B) :=
  match l with
  | [] => Ok []
  | x :: rest => y <- f x ;; ys <- mapM f rest ;; Ok (y :: ys)
  end.

(** ** CIDR parser *)

Module Cidr.
Record t : Type := mk
  { networkInt : Z; prefix : num; total : num; broadcastInt : Z }.
End Cidr.

Definition parseCidr (cidr : string) : result Cidr.t :=
  let parts := split "/" cidr in
  if negb (Nat.eqb (List.length parts) 2) then Err E_InvalidCIDR else
  let ip := nth 0 parts "" in
  let prefix := parseInt (nth 1 parts "") in
  if lt prefix 0 || gt prefix 32 then Err E_InvalidPrefix else
  let networkInt :=
    band (ipToInt ip)
         ((if strictEq prefix 0 then 0 else ushr (shl 4294967295 (sub 32 prefix)) 0) : Z) in
  let total := pow2 (sub 32 prefix) in
  let broadcastInt := ushr (sub (add networkInt total) 1) 0 in
  Ok (Cidr.mk networkInt prefix total broadcastInt).

(** ** Prefix sizer *)

(** The [for (let prefix = 32; prefix >= 0; prefix--)] loop of
    [calcMinPrefixForHosts], entered at [prefix]; leaving the loop throws. *)
Fixpoint scanPrefixes (prefix : nat) (hosts : Z) : result Z :=
  let total := 2 ^ (32 - Z.of_nat prefix) in
  let usable :=
    if Nat.eqb prefix 32 then 1 else if Nat.eqb prefix 31 then 0 else total - 2 in
  if usable >=? hosts then Ok (Z.of_nat prefix)
  else match prefix with
       | O => Err E_CannotSatisfy
       | S prefix' => scanPrefixes prefix' hosts
       end.

Definition calcMinPrefixForHosts (hosts : num) : result Z :=
  match hosts with
  | NaN => Err E_HostsNonNegative
  | Num h =>
      if h <? 0 then Err E_HostsNonNegative
      else if h =? 0 then Ok 32
      else scanPrefixes 32 h
  end.

(** ** Subnet records *)

Module Subnet.
Record t : Type := mk
  { network : string;
    prefix : Z;
    cidr : string;
    subnet_mask : string;
    wildcard_mask : string;
    total_addresses : Z;
    usable_hosts : Z;
    requested_hosts : Z;
    first_usable : string;
    last_usable : string;
    broadcast : string;
    wasted_addresses : Z }.
End Subnet.

Definition subnetInfo (networkInt prefix requestedHosts : Z) : Subnet.t :=
  let total := 2 ^ (32 - prefix) in
  let broadcast := ushr (networkInt + total - 1) 0 in
  let '(usable, first, last, broadcast) :=
    if prefix =? 32 then
      (1, intToIp networkInt, intToIp networkInt, intToIp networkInt)
    else if prefix =? 31 then
      (0, intToIp networkInt, intToIp broadcast, intToIp broadcast)
    else
      (total - 2, intToIp (ushr (networkInt + 1) 0),
       intToIp (ushr (broadcast - 1) 0), intToIp broadcast) in
  let mask := maskFromPrefix prefix in
  let wildcard := wildcardFromPrefix prefix in
  let wasted := total - requestedHosts in
  Subnet.mk (intToIp networkInt) prefix
            (intToIp networkInt ++ "/" ++ toString prefix)
            mask wildcard total usable requestedHosts first last broadcast wasted.

(** ** Allocator *)

Module Req.
Record t : Type := mk { requested : Z; prefix : Z; block : Z }.
End Req.

(** The callback of [hostRequirements.slice().map(h => ...)]. *)
Definition resolve (h : num) : result Req.t :=
  match h with
  | NaN => Err E_HostRequirements
  | Num z =>
      if z <=? 0 then Err E_HostRequirements
      else prefix <- calcMinPrefixForHosts h ;;
           Ok (Req.mk z prefix (2 ^ (32 - prefix)))
  end.

(** The comparator [(a, b) => b.requested - a.requested || a.prefix - b.prefix]. *)
Definition compareReqs (a b : Req.t) : Z :=
  let d := Req.requested b - Req.requested a in
  if d =? 0 then Req.prefix a - Req.prefix b else d.

(** [Array.prototype.sort] is stable; with a comparator that is a total
    preorder its result is the stable sorted arrangement, which insertion
    from the right computes. *)
Fixpoint insertSorted {A : Type} (cmp : A -> A -> Z) (x : A) (l : list A) : list A :=
  match l with
  | [] => [x]
  | y :: rest => if cmp x y <=? 0 then x :: l else y :: insertSorted cmp x rest
  end.

Definition sort {A : Type} (cmp : A -> A -> Z) (l : list A) : list A :=
  fold_right (insertSorted cmp) [] l.

(** [Math.ceil(a / b)] for a positive [b].  The allocator divides by a block
    size, a power of two, so the floating-point quotient is exact. *)
Definition ceilDiv (a b : Z) : Z := - ((- a) / b).

(** The placement loop [for (const r of reqs)], with its two variables
    [current] and [allocations] as explicit state. *)
Fixpoint placeAll (primaryStart primaryEnd : Z) (reqs : list Req.t)
         (current : Z) (allocations : list Subnet.t) : result (list Subnet.t) :=
  match reqs with
  | [] => Ok allocations
  | r :: rest =>
      let boundary := Req.block r in
      let alignedStart := ushr (ceilDiv current boundary * boundary) 0 in
      if ushr (alignedStart + Req.block r - 1) 0 >? primaryEnd then
        Err (E_CannotAllocate (Req.requested r) (Req.prefix r) (Req.block r))
      else if (alignedStart <? primaryStart)
              || (ushr (alignedStart + Req.block r - 1) 0 >? primaryEnd) then
        Err E_OutsidePrimary
      else
        placeAll primaryStart primaryEnd rest
                 (ushr (alignedStart + Req.block r) 0)
                 (allocations ++ [subnetInfo alignedStart (Req.prefix r) (Req.requested r)])
  end.

(** The inner loop of the overlap verification: [a] is [allocations[i]] and
    [later] the records at the indices [j > i]. *)
Fixpoint checkAgainst (a : Subnet.t) (later : list Subnet.t) : result unit :=
  match later with
  | [] => Ok tt
  | b :: rest =>
      let aStart := ipToInt (Subnet.network a) in
      let aEnd := aStart + Subnet.total_addresses a - 1 in
      let bStart := ipToInt (Subnet.network b) in
      let bEnd := bStart + Subnet.total_addresses b - 1 in
      if negb ((aEnd <? bStart) || (bEnd <? aStart)) then
        Err (E_Overlap (Subnet.cidr a) (Subnet.cidr b))
      else checkAgainst a rest
  end.

(** The outer loop of the overlap verification. *)
Fixpoint verifyNoOverlaps (allocations : list Subnet.t) : result unit :=
  match allocations with
  | [] => Ok tt
  | a :: later => _ <- checkAgainst a later ;; verifyNoOverlaps later
  end.

Definition allocateVlsm (primaryCidr : string) (hostRequirements : list num)
  : result (list Subnet.t) :=
  primary <- parseCidr primaryCidr ;;
  let primaryStart := Cidr.networkInt primary in
  let primaryEnd := Cidr.broadcastInt primary in
  resolved <- mapM resolve hostRequirements ;;
  let reqs := sort compareReqs resolved in
  let sumBlocks := fold_left (fun s r => s + Req.block r) reqs 0 in
  if gt sumBlocks (Cidr.total primary) then
    Err (E_RequirementsNeed sumBlocks (Cidr.total primary))
  else
    allocations <- placeAll primaryStart primaryEnd reqs primaryStart [] ;;
    _ <- verifyNoOverlaps allocations ;;
    Ok allocations.

(** ** Auxiliary definitions used by the statements and proofs *)

(** Does the character occur in the string? *)
Fixpoint hasChar (c : ascii) (s : string) : bool :=
  match s with
  | EmptyString => false
  | String c' rest => Ascii.eqb c' c || hasChar c rest
  end.

(** What the address codec needs of the decimal rendering of an octet:
    no dot inside, and [parseInt] reads it back. *)
Definition octetRendersBack (v : Z) : bool :=
  negb (hasChar "." (toString v))
  && match parseInt (toString v) with
     | Num z => z =? v
     | NaN => false
     end.

(** The usable-host capacity of a prefix, the formula shared by the scan of
    [calcMinPrefixForHosts] and by [subnetInfo]. *)
Definition capacity (prefix : Z) : Z :=
  if prefix =? 32 then 1 else if prefix =? 31 then 0 else 2 ^ (32 - prefix) - 2.

(** What [resolve] guarantees of the object it returns. *)
Definition Resolved (r : Req.t) : Prop :=
  0 < Req.requested r
  /\ 0 <= Req.prefix r <= 32
  /\ Req.block r = 2 ^ (32 - Req.prefix r)
  /\ Req.requested r <= capacity (Req.prefix r)
  /\ forall q, Req.prefix r < q <= 32 -> capacity q < Req.requested r.

(** The placement order of the allocator: requested hosts descending, ties by
    prefix ascending. *)
Definition placedBefore (a b : Req.t) : Prop :=
  Req.requested b < Req.requested a
  \/ (Req.requested a = Req.requested b /\ Req.prefix a <= Req.prefix b).

(** [sumBlocks] of a list of resolved requirements, as [allocateVlsm]
    computes it. *)
Definition sumBlocks (reqs : list Req.t) : Z :=
  fold_left (fun s r => s + Req.block r) reqs 0.

(** The integer range of a record: its network address read back by
    [ipToInt], and the last address of its block. *)
Definition rangeStart (r : Subnet.t) : Z := ipToInt (Subnet.network r).
Definition rangeEnd (r : Subnet.t) : Z := rangeStart r + Subnet.total_addresses r - 1.

(** The records lie back to back from [start] and end at or before [limit]. *)
Fixpoint Contiguous (start limit : Z) (recs : list Subnet.t) : Prop :=
  match recs with
  | [] => True
  | r :: rest =>
      rangeStart r = start
      /\ 0 < Subnet.total_addresses r
      /\ rangeEnd r <= limit
      /\ Contiguous (start + Subnet.total_addresses r) limit rest
  end.

(** The mask of a prefix in [1, 32], read as a signed 32-bit operand of [&],
    is the complement of the low [32 - prefix] ones. *)
Definition maskClearsHostBits (p : Z) : bool :=
  ToInt32 (maskBits p) =? Z.lnot (Z.ones (32 - p)).

(** The placement order read off the returned records. *)
Definition recordBefore (a b : Subnet.t) : Prop :=
  Subnet.requested_hosts b < Subnet.requested_hosts a
  \/ (Subnet.requested_hosts a = Subnet.requested_hosts b
      /\ Subnet.prefix a <= Subnet.prefix b).

(** The mask and the wildcard of a prefix are complements, on the constants
    and on the values read back from the two returned texts. *)
Definition maskWildcardComplement (p : Z) : bool :=
  (Z.land (maskBits p) (wildBits p) =? 0)
  && (Z.lor (maskBits p) (wildBits p) =? 4294967295)
  && (ipToInt (maskFromPrefix p) =? maskBits p)
  && (ipToInt (wildcardFromPrefix p) =? wildBits p).

(** ** The address format of the specification

    The specification's [parseAddress], written from its words: split on
    '.', exactly 4 decimal octet groups each in [0,255], combined big-endian;
    anything else is [InvalidAddressFormat], here [None].  It is compared
    with [ipToInt] below. *)
Module Spec.

Fixpoint allDigits (s : string) : bool :=
  match s with
  | EmptyString => true
  | String c rest =>
      match digitOf c with
      | Some _ => allDigits rest
      | None => false
      end
  end.

(** Positional value of a digit string: the digit [d] followed by [k] more
    digits weighs [d * 10^k]. *)
Fixpoint decimalValue (s : string) : Z :=
  match s with
  | EmptyString => 0
  | String c rest =>
      match digitOf c with
      | Some d => d * 10 ^ Z.of_nat (String.length rest) + decimalValue rest
      | None => 0
      end
  end.

Definition octetGroup (s : string) : option Z :=
  match s with
  | EmptyString => None
  | _ => if allDigits s && (decimalValue s <=? 255)
         then Some (decimalValue s) else None
  end.

Definition parseAddress (text : string) : option Z :=
  match map octetGroup (split "." text) with
  | [Some a; Some b; Some c; Some d] =>
      Some (a * 16777216 + b * 65536 + c * 256 + d)
  | _ => None
  end.

End Spec.

(** ** The scenarios of the specification *)

(** Scenario A: the records of [allocate("192.168.0.0/24", [50, 20, 10])]. *)
Definition scenarioA : list Subnet.t :=
  [ Subnet.mk "192.168.0.0" 26 "192.168.0.0/26" "255.255.255.192" "0.0.0.63"
              64 62 50 "192.168.0.1" "192.168.0.62" "192.168.0.63" 14;
    Subnet.mk "192.168.0.64" 27 "192.168.0.64/27" "255.255.255.224" "0.0.0.31"
              32 30 20 "192.168.0.65" "192.168.0.94" "192.168.0.95" 12;
    Subnet.mk "192.168.0.96" 28 "192.168.0.96/28" "255.255.255.240" "0.0.0.15"
              16 14 10 "192.168.0.97" "192.168.0.110" "192.168.0.111" 6 ].

(** Scenario B: the records of [allocate("10.0.0.0/16", [1000, 2000, 50])]. *)
Definition scenarioB : list Subnet.t :=
  [ Subnet.mk "10.0.0.0" 21 "10.0.0.0/21" "255.255.248.0" "0.0.7.255"
              2048 2046 2000 "10.0.0.1" "10.0.7.254" "10.0.7.255" 48;
    Subnet.mk "10.0.8.0" 22 "10.0.8.0/22" "255.255.252.0" "0.0.3.255"
              1024 1022 1000 "10.0.8.1" "10.0.11.254" "10.0.11.255" 24;
    Subnet.mk "10.0.12.0" 26 "10.0.12.0/26" "255.255.255.192" "0.0.0.63"
              64 62 50 "10.0.12.1" "10.0.12.62" "10.0.12.63" 14 ].


(** What the scenarios state of a record: network, prefix, total and usable
    addresses. *)
Definition summary (r : Subnet.t) : string * Z * Z * Z :=
  (Subnet.network r, Subnet.prefix r, Subnet.total_addresses r,
   Subnet.usable_hosts r).

(** ** Further auxiliary definitions *)

(** The decimal rendering of an octet is an octet group of the
    specification's address format, with the octet as its value. *)
Definition octetIsGroup (v : Z) : bool :=
  match Spec.octetGroup (toString v) with
  | Some z => z =? v
  | None => false
  end.

(** Closed forms of the mask and the wildcard of a prefix. *)
Definition maskClosedForm (p : Z) : bool :=
  (maskBits p =? two32 - 2 ^ (32 - p)) && (wildBits p =? 2 ^ (32 - p) - 1).

(** The number of occurrences of a character in a string. *)
Fixpoint countChar (c : ascii) (s : string) : nat :=
  match s with
  | EmptyString => O
  | String c' rest => if Ascii.eqb c' c then S (countChar c rest) else countChar c rest
  end.

(** The decimal rendering of an octet holds no slash. *)
Definition octetHasNoSlash (v : Z) : bool := negb (hasChar "/" (toString v)).

(** The requirement a host count resolves to, where [resolve] succeeds. *)
Definition resolved_or_default (h : num) : Req.t :=
  match resolve h with
  | Ok r => r
  | Err _ => Req.mk 0 0 0
  end.

(** The number of addresses a list of records takes. *)
Definition totalAllocated (recs : list Subnet.t) : Z :=
  fold_right Z.add 0 (map Subnet.total_addresses recs).

(** ** The calculator component with a free-text requirements field

    The revision of the calculator component that reads the host
    requirements from one text field: [parseHostsInput] and the computation
    of its [onCalculate].  The React state is reduced to the two values that
    [onCalculate] sets, and rendering is left out. *)

(** A character of the class [[,\s]] of the split pattern. *)
Definition isSeparator (c : ascii) : bool :=
  Ascii.eqb c "," || isWhiteSpace c.

(** [input.split(/[,\s]+/)]: every maximal run of separators splits the
    text once; a run at either end leaves an empty string there.  [inRun]
    tells that the character before was a separator of the current run. *)
Fixpoint splitRuns (inRun : bool) (s : string) : list string :=
  match s with
  | EmptyString => [EmptyString]
  | String c rest =>
      if isSeparator c then
        if inRun then splitRuns true rest else EmptyString :: splitRuns true rest
      else match splitRuns false rest with
           | hd :: tl => String c hd :: tl
           | [] => [String c EmptyString]
           end
  end.

Fixpoint trimEnd (s : string) : string :=
  match s with
  | EmptyString => EmptyString
  | String c rest =>
      match trimEnd rest with
      | EmptyString => if isWhiteSpace c then EmptyString else String c EmptyString
      | t => String c t
      end
  end.

(** [s.trim()] *)
Definition trim (s : string) : string := trimEnd (trimStart s).

(** [Boolean(s)] on a string: false exactly for the empty string. *)
Definition truthy (s : string) : bool :=
  match s with
  | EmptyString => false
  | String _ _ => true
  end.

(** [input.split(/[,\s]+/).map(s => s.trim()).filter(Boolean)
         .map(s => parseInt(s, 10))] *)
Definition parseHostsInput (input : string) : list num :=
  map parseInt (filter truthy (map trim (splitRuns false input))).

Module HostsText.

(** What [onCalculate] catches: its own 'Provide at least one host
    requirement', or an error thrown by [allocateVlsm]. *)
Inductive failure : Type :=
  | ProvideAtLeastOne
  | Thrown (e : error).

(** The state that [onCalculate] leaves: [error] and [allocs], both null
    (here [None]) before the computation. *)
Record view : Type := mkView
  { error : option failure; allocs : option (list Subnet.t) }.

Definition onCalculate (primary hostsText : string) : view :=
  let hosts := parseHostsInput hostsText in
  if Nat.eqb (List.length hosts) 0 then mkView (Some ProvideAtLeastOne) None
  else match allocateVlsm primary hosts with
       | Ok res => mkView None (Some res)
       | Err e => mkView (Some (Thrown e)) None
       end.

End HostsText.

(** No separator occurs in the string. *)
Fixpoint separatorFree (s : string) : bool :=
  match s with
  | EmptyString => true
  | String c rest => negb (isSeparator c) && separatorFree rest
  end.

(** The string holds separators only. *)
Fixpoint separatorsOnly (s : string) : bool :=
  match s with
  | EmptyString => true
  | String c rest => isSeparator c && separatorsOnly rest
  end.

(** ** The calculator component with named requirements,
       [components/VlsmCalculator.jsx]

    The computation of its [onCalculate]: validation of the requirement
    rows, the call of [allocateVlsm], and the attachment of the row names to
    the returned records. *)

Module NamedHosts.

(** The [hosts] field of a row, as the input handler stores it: the empty
    string, or what [parseInt] made of the typed text. *)
Inductive hostsValue : Type :=
  | Blank
  | Value (n : num).

Record entry : Type := mkEntry { name : string; hosts : hostsValue }.

(** The errors that [onCalculate] catches: its four own messages, or an
    error thrown by [parseCidr] or [allocateVlsm]. *)
Inductive failure : Type :=
  | AddAtLeastOne            (* 'Add at least one subnet requirement' *)
  | NameMissing              (* 'Each subnet must have a name' *)
  | EmptyHostEntry           (* 'Empty host entries are not allowed' *)
  | NotPositiveInteger       (* 'Host values must be positive integers' *)
  | Thrown (e : error).

(** A returned record with the name attached: [{ ...r, name }]. *)
Record named : Type := mkNamed { record : Subnet.t; label : string }.

Record view : Type := mkView
  { error : option failure; allocs : option (list named) }.

(** The callback of [hosts.map(h => ...)]: the three checks of a row, then
    its host count. *)
Definition validate (h : entry) : failure + num :=
  if negb (truthy (name h)) || Nat.eqb (String.length (trim (name h))) 0 then
    inl NameMissing
  else match hosts h with
       | Blank => inl EmptyHostEntry
       | Value NaN => inl NotPositiveInteger
       | Value (Num z) => if z <=? 0 then inl NotPositiveInteger else inr (Num z)
       end.

Fixpoint validateAll (hs : list entry) : failure + list num :=
  match hs with
  | [] => inr []
  | h :: rest =>
      match validate h with
      | inl f => inl f
      | inr n => match validateAll rest with
                 | inl f => inl f
                 | inr ns => inr (n :: ns)
                 end
      end
  end.

(** [h.hosts === r.requested_hosts] *)
Definition sameHosts (requested : Z) (h : entry) : bool :=
  match hosts h with
  | Value (Num z) => z =? requested
  | _ => false
  end.

(** [remaining.findIndex(p)]; [None] stands for -1. *)
Fixpoint findIndex (p : entry -> bool) (remaining : list entry) : option nat :=
  match remaining with
  | [] => None
  | h :: rest => if p h then Some O
                 else match findIndex p rest with
                      | Some i => Some (S i)
                      | None => None
                      end
  end.

(** [remaining.splice(idx, 1)], as the array it leaves. *)
Fixpoint removeAt (idx : nat) (remaining : list entry) : list entry :=
  match remaining, idx with
  | [], _ => []
  | _ :: rest, O => rest
  | h :: rest, S i => h :: removeAt i rest
  end.

(** [res.map(r => ...)] with the array [remaining] that the callback
    consumes as explicit state. *)
Fixpoint attachNames (remaining : list entry) (res : list Subnet.t) : list named :=
  match res with
  | [] => []
  | r :: rest =>
      match findIndex (sameHosts (Subnet.requested_hosts r)) remaining with
      | Some idx =>
          mkNamed r (name (nth idx remaining (mkEntry EmptyString Blank)))
          :: attachNames (removeAt idx remaining) rest
      | None => mkNamed r EmptyString :: attachNames remaining rest
      end
  end.

Definition onCalculate (primary : string) (hosts : list entry) : view :=
  match parseCidr primary with
  | Err e => mkView (Some (Thrown e)) None
  | Ok _ =>
      if Nat.eqb (List.length hosts) 0 then mkView (Some AddAtLeastOne) None
      else match validateAll hosts with
           | inl f => mkView (Some f) None
           | inr hostNums =>
               match allocateVlsm primary hostNums with
               | Err e => mkView (Some (Thrown e)) None
               | Ok res => mkView None (Some (attachNames hosts res))
               end
           end
  end.

(** The host count of a row, where it is an integer. *)
Definition hostCount (h : entry) : Z :=
  match hosts h with
  | Value (Num z) => z
  | _ => 0
  end.

(** A row and a labelled record as (name, host count) pairs. *)
Definition rowPair (h : entry) : string * Z := (name h, hostCount h).

Definition namedPair (n : named) : string * Z :=
  (label n, Subnet.requested_hosts (record n)).

(** A row that passes the three checks: a name that is not blank and a
    positive integer host count. *)
Definition validRow (h : entry) (z : Z) : Prop :=
  trim (name h) <> EmptyString /\ hosts h = Value (Num z) /\ 0 < z.

End NamedHosts.

(** The integer of an integer-valued Number. *)
Definition numValue (n : num) : Z :=
  match n with
  | Num z => z
  | NaN => 0
  end.

(** The address [x] lies in the range of the record [r]. *)
Definition inRange (x : Z) (r : Subnet.t) : Prop :=
  rangeStart r <= x <= rangeEnd r.

(** * Properties *)

Lemma Ok_inj {A : Type} (x y : A) : Ok x = Ok y -> x = y.
Proof. congruence. Qed.

(** ** The 32-bit operators *)

Lemma ToUint32_range (n : num) : 0 <= ToUint32 n < two32.
Proof.
  destruct n as [z|]; unfold ToUint32, two32; [apply Z.mod_pos_bound|]; lia.
Qed.

Lemma ToUint32_small (z : Z) : 0 <= z < two32 -> ToUint32 z = z.
Proof. intros H; unfold ToUint32. now apply Z.mod_small. Qed.

Lemma ushr_0 (n : num) : ushr n 0 = ToUint32 n.
Proof. unfold ushr. now rewrite Z.shiftr_0_r. Qed.

Lemma ushr_0_range (n : num) : 0 <= ushr n 0 < two32.
Proof. rewrite ushr_0. apply ToUint32_range. Qed.

Lemma ToInt32_range (n : num) : - two31 <= ToInt32 n < two31.
Proof.
  unfold ToInt32. pose proof (ToUint32_range n) as H.
  destruct (ToUint32 n <? two31) eqn:E;
    [apply Z.ltb_lt in E | apply Z.ltb_ge in E]; unfold two32, two31 in *; lia.
Qed.

Lemma ToInt32_mod (z : Z) : ToInt32 z mod two32 = z mod two32.
Proof.
  unfold ToInt32, ToUint32.
  destruct (z mod two32 <? two31).
  - apply Z.mod_mod. unfold two32; lia.
  - replace (z mod two32 - two32) with (z mod two32 + (-1) * two32) by ring.
    rewrite Z.mod_add by (unfold two32; lia).
    apply Z.mod_mod. unfold two32; lia.
Qed.

Lemma ToInt32_small (z : Z) : - two31 <= z < two31 -> ToInt32 z = z.
Proof.
  intros H. pose proof (ToInt32_mod z) as M. pose proof (ToInt32_range z) as R.
  unfold two32, two31 in *.
  apply Z.sub_move_0_r.
  assert (D : (ToInt32 z - z) mod 4294967296 = 0).
  { rewrite Zminus_mod, M, Z.sub_diag. reflexivity. }
  apply Z.mod_divide in D; [|lia]. destruct D as [k D]. lia.
Qed.

Lemma mod_two32_congr (x y k v : Z) :
  x mod two32 = y mod two32 -> (x * k + v) mod two32 = (y * k + v) mod two32.
Proof.
  intros H.
  rewrite (Z.add_mod (x * k)), (Z.add_mod (y * k)) by (unfold two32; lia).
  rewrite (Z.mul_mod x), (Z.mul_mod y) by (unfold two32; lia).
  now rewrite H.
Qed.

(** One step of the [reduce] of [ipToInt] on an integer accumulator. *)
Lemma shl8_add_mod (a v : Z) :
  exists a', add (shl a 8) (Num v) = Num a'
             /\ a' mod two32 = (a * 256 + v) mod two32.
Proof.
  exists (shl a 8 + v). split; [reflexivity|].
  unfold shl. change (ToUint32 8 mod 32) with 8.
  rewrite Z.shiftl_mul_pow2 by lia. change (2 ^ 8) with 256.
  rewrite (Z.add_mod (ToInt32 _)), ToInt32_mod, <- Z.add_mod by (unfold two32; lia).
  apply mod_two32_congr, ToInt32_mod.
Qed.

(** The [reduce] of [ipToInt] over four groups that [parseInt] reads as
    integers. *)
Lemma ipToInt_groups (ip g3 g2 g1 g0 : string) (o3 o2 o1 o0 : Z) :
  split "." ip = [g3; g2; g1; g0] ->
  parseInt g3 = Num o3 -> parseInt g2 = Num o2 ->
  parseInt g1 = Num o1 -> parseInt g0 = Num o0 ->
  ipToInt ip = (o3 * 16777216 + o2 * 65536 + o1 * 256 + o0) mod two32.
Proof.
  intros S P3 P2 P1 P0. unfold ipToInt. rewrite ushr_0, S. cbn [fold_left].
  rewrite P3, P2, P1, P0.
  destruct (shl8_add_mod 0 o3) as (a3 & -> & M3).
  destruct (shl8_add_mod a3 o2) as (a2 & -> & M2).
  destruct (shl8_add_mod a2 o1) as (a1 & -> & M1).
  destruct (shl8_add_mod a1 o0) as (a0 & -> & M0).
  unfold ToUint32. rewrite M0.
  rewrite (mod_two32_congr a1 ((o3 * 256 + o2) * 256 + o1)).
  - f_equal. ring.
  - rewrite M1. rewrite (mod_two32_congr a2 (o3 * 256 + o2)); [reflexivity|].
    rewrite M2. apply mod_two32_congr. rewrite M3. reflexivity.
Qed.

(** [ipToInt] never throws and always yields an unsigned 32-bit value. *)
Lemma ipToInt_range (ip : string) : 0 <= ipToInt ip < two32.
Proof. unfold ipToInt. apply ushr_0_range. Qed.

(** ** Round trip of the address codec *)

Lemma split_no_sep (sep : ascii) (s : string) :
  hasChar sep s = false -> split sep s = [s].
Proof.
  induction s as [|c s IH]; cbn; [reflexivity|].
  intros H. apply orb_false_iff in H as [H1 H2].
  rewrite H1, (IH H2). reflexivity.
Qed.

Lemma split_app_sep (sep : ascii) (a rest : string) :
  hasChar sep a = false ->
  split sep (a ++ String sep rest) = a :: split sep rest.
Proof.
  induction a as [|c a IH]; cbn.
  - intros _. now rewrite Ascii.eqb_refl.
  - intros H. apply orb_false_iff in H as [H1 H2].
    rewrite H1, (IH H2). reflexivity.
Qed.

Lemma octets_render_back :
  forallb (fun n => octetRendersBack (Z.of_nat n)) (seq 0 256) = true.
Proof. vm_compute. reflexivity. Qed.

Lemma octet_renders_back (v : Z) :
  0 <= v < 256 ->
  hasChar "." (toString v) = false /\ parseInt (toString v) = Num v.
Proof.
  intros H. pose proof octets_render_back as A.
  rewrite forallb_forall in A. specialize (A (Z.to_nat v)).
  rewrite Z2Nat.id in A by lia.
  assert (I : In (Z.to_nat v) (seq 0 256)) by (apply in_seq; lia).
  specialize (A I). unfold octetRendersBack in A.
  apply andb_true_iff in A as [A1 A2]. split.
  - now apply negb_true_iff in A1.
  - destruct (parseInt (toString v)) as [z|]; [|discriminate].
    apply Z.eqb_eq in A2. now subst.
Qed.

Lemma band_255 (x : Z) : band x 255 = x mod 256.
Proof.
  unfold band. change (ToInt32 255) with (Z.ones 8).
  rewrite Z.land_ones by lia. change (2 ^ 8) with 256.
  assert (D : (256 | two32)) by (exists 16777216; reflexivity).
  rewrite <- (Z.mod_mod_divide (ToInt32 x) two32 256 D), ToInt32_mod.
  now apply Z.mod_mod_divide.
Qed.

Lemma intToIp_octets (s : Z) :
  0 <= s < two32 ->
  intToIp s =
    toString (s / 16777216 mod 256) ++ "." ++
    toString (s / 65536 mod 256) ++ "." ++
    toString (s / 256 mod 256) ++ "." ++
    toString (s mod 256).
Proof.
  intros H. unfold intToIp, join. cbn [map String.concat].
  rewrite !band_255. unfold ushr. rewrite (ToUint32_small s H).
  change (ToUint32 24 mod 32) with 24. change (ToUint32 16 mod 32) with 16.
  change (ToUint32 8 mod 32) with 8. change (ToUint32 0 mod 32) with 0.
  rewrite !Z.shiftr_div_pow2 by lia.
  change (2 ^ 24) with 16777216. change (2 ^ 16) with 65536.
  change (2 ^ 8) with 256. change (2 ^ 0) with 1. rewrite Z.div_1_r.
  reflexivity.
Qed.

(** [ipToInt] reads back what [intToIp] prints. *)
Lemma ipToInt_intToIp (s : Z) : 0 <= s < two32 -> ipToInt (intToIp s) = s.
Proof.
  intros H.
  assert (B : forall k, 0 <= s / k mod 256 < 256)
    by (intros k; apply Z.mod_pos_bound; lia).
  assert (B0 : 0 <= s mod 256 < 256) by (apply Z.mod_pos_bound; lia).
  destruct (octet_renders_back _ (B 16777216)) as [D3 P3].
  destruct (octet_renders_back _ (B 65536)) as [D2 P2].
  destruct (octet_renders_back _ (B 256)) as [D1 P1].
  destruct (octet_renders_back _ B0) as [D0 P0].
  assert (S : split "." (intToIp s) =
              [toString (s / 16777216 mod 256); toString (s / 65536 mod 256);
               toString (s / 256 mod 256); toString (s mod 256)]).
  { rewrite (intToIp_octets s H).
    cbn [append].
    rewrite !split_app_sep by assumption.
    now rewrite split_no_sep. }
  rewrite (ipToInt_groups _ _ _ _ _ _ _ _ _ S P3 P2 P1 P0).
  clear - H. unfold two32 in *.
  rewrite Z.mod_small; Z.to_euclidean_division_equations; lia.
Qed.

(** ** The prefix sizer *)

Lemma scan_usable (n : nat) :
  (if Nat.eqb n 32 then 1 else if Nat.eqb n 31 then 0
   else 2 ^ (32 - Z.of_nat n) - 2) = capacity (Z.of_nat n).
Proof.
  unfold capacity.
  destruct (Nat.eqb_spec n 32), (Z.eqb_spec (Z.of_nat n) 32); try lia.
  destruct (Nat.eqb_spec n 31), (Z.eqb_spec (Z.of_nat n) 31); lia.
Qed.

Lemma scanPrefixes_spec (n : nat) (h p : Z) :
  scanPrefixes n h = Ok p ->
  0 <= p <= Z.of_nat n
  /\ h <= capacity p
  /\ forall q, p < q <= Z.of_nat n -> capacity q < h.
Proof.
  induction n as [|n IH]; cbn [scanPrefixes]; cbv zeta; rewrite scan_usable;
    destruct (capacity _ >=? h) eqn:E.
  - intros [= <-]. apply Z.geb_le in E.
    split; [lia | split; [exact E | intros q Hq; lia]].
  - discriminate.
  - intros [= <-]. apply Z.geb_le in E.
    split; [lia | split; [exact E | intros q Hq; lia]].
  - intros H. destruct (IH H) as (R & C & M).
    assert (E' : capacity (Z.of_nat (S n)) < h).
    { destruct (Z.geb_spec (capacity (Z.of_nat (S n))) h); [discriminate | lia]. }
    split; [lia | split; [exact C |]]. intros q Hq.
    destruct (Z.eq_dec q (Z.of_nat (S n))) as [-> | Hne]; [exact E'|].
    apply M. lia.
Qed.

Lemma resolve_Resolved (h : num) (r : Req.t) :
  resolve h = Ok r -> h = Num (Req.requested r) /\ Resolved r.
Proof.
  destruct h as [z|]; cbn [resolve]; [|discriminate].
  destruct (Z.leb_spec z 0) as [|Hz]; [discriminate|].
  cbn [calcMinPrefixForHosts].
  destruct (Z.ltb_spec z 0); [lia|]. destruct (Z.eqb_spec z 0); [lia|].
  destruct (scanPrefixes 32 z) as [p|e] eqn:S; cbn [bind]; [|discriminate].
  intros [= <-]. cbn. apply scanPrefixes_spec in S. change (Z.of_nat 32) with 32 in S.
  split; [reflexivity|]. unfold Resolved; cbn. intuition lia.
Qed.

Lemma mapM_resolve (hosts : list num) (rs : list Req.t) :
  mapM resolve hosts = Ok rs ->
  hosts = map (fun r => Num (Req.requested r)) rs /\ Forall Resolved rs.
Proof.
  revert rs. induction hosts as [|h hosts IH]; cbn [mapM]; intros rs.
  - intros [= <-]. split; [reflexivity | constructor].
  - destruct (resolve h) as [r|e] eqn:R; cbn [bind]; [|discriminate].
    destruct (mapM resolve hosts) as [rs'|e] eqn:M; cbn [bind]; [|discriminate].
    intros [= <-]. destruct (IH rs' eq_refl) as [-> F].
    apply resolve_Resolved in R as [-> Rr]. split; [reflexivity | now constructor].
Qed.

(** The sizer is antitone: more hosts never get a longer prefix. *)
Lemma Resolved_prefix_mono (a b : Req.t) :
  Resolved a -> Resolved b ->
  Req.requested b <= Req.requested a -> Req.prefix a <= Req.prefix b.
Proof.
  intros (_ & Ra & _ & Ca & Ma) (_ & Rb & _ & Cb & Mb) H.
  destruct (Z.le_gt_cases (Req.prefix a) (Req.prefix b)) as [|G]; [assumption|].
  specialize (Mb (Req.prefix a)). lia.
Qed.

(** The block of a resolved requirement accommodates the request. *)
Lemma capacity_le_block (p : Z) : 0 <= p <= 32 -> capacity p <= 2 ^ (32 - p).
Proof.
  intros H. unfold capacity.
  destruct (Z.eqb_spec p 32) as [->|]; [cbn; lia|].
  destruct (Z.eqb_spec p 31) as [->|]; [cbn; lia|]. lia.
Qed.

(** ** The sort *)

Section Sort.
Context {A : Type} (cmp : A -> A -> Z).

Lemma insertSorted_perm (x : A) (l : list A) :
  Permutation (insertSorted cmp x l) (x :: l).
Proof.
  induction l as [|y l IH]; cbn; [reflexivity|].
  destruct (cmp x y <=? 0); [reflexivity|].
  rewrite IH. apply perm_swap.
Qed.

Lemma sort_perm (l : list A) : Permutation (sort cmp l) l.
Proof.
  induction l as [|x l IH]; cbn; [constructor|].
  rewrite insertSorted_perm. now constructor.
Qed.

Variable R : A -> A -> Prop.
Hypothesis R_cmp : forall x y, cmp x y <= 0 -> R x y.
Hypothesis R_total : forall x y, 0 < cmp x y -> R y x.
Hypothesis R_trans : forall x y z, R x y -> R y z -> R x z.

Lemma insertSorted_sorted (x : A) (l : list A) :
  StronglySorted R l -> StronglySorted R (insertSorted cmp x l).
Proof.
  induction l as [|y l IH]; cbn; intros S.
  - repeat constructor.
  - inversion S as [|? ? S' F]; subst.
    destruct (Z.leb_spec (cmp x y) 0) as [Hle|Hgt].
    + constructor; [assumption|]. constructor; [now apply R_cmp|].
      eapply Forall_impl; [|exact F]. intros z Hz.
      eapply R_trans; [apply R_cmp, Hle | exact Hz].
    + constructor; [now apply IH|].
      eapply Permutation_Forall; [symmetry; apply insertSorted_perm|].
      constructor; [now apply R_total | assumption].
Qed.

Lemma sort_sorted (l : list A) : StronglySorted R (sort cmp l).
Proof.
  induction l as [|x l IH]; cbn; [constructor | now apply insertSorted_sorted].
Qed.
End Sort.

Lemma compareReqs_placedBefore (a b : Req.t) :
  compareReqs a b <= 0 <-> placedBefore a b.
Proof.
  unfold compareReqs, placedBefore.
  destruct (Z.eqb_spec (Req.requested b - Req.requested a) 0); lia.
Qed.

Lemma sort_compareReqs_sorted (l : list Req.t) :
  StronglySorted placedBefore (sort compareReqs l).
Proof.
  apply sort_sorted.
  - intros x y. apply compareReqs_placedBefore.
  - intros x y H. apply compareReqs_placedBefore.
    unfold compareReqs in *.
    destruct (Z.eqb_spec (Req.requested y - Req.requested x) 0) as [E|E];
      destruct (Z.eqb_spec (Req.requested x - Req.requested y) 0); lia.
  - unfold placedBefore. intros x y z. lia.
Qed.

(** ** Records built by [subnetInfo] *)

Lemma subnetInfo_fields (s p h : Z) :
  Subnet.network (subnetInfo s p h) = intToIp s
  /\ Subnet.prefix (subnetInfo s p h) = p
  /\ Subnet.total_addresses (subnetInfo s p h) = 2 ^ (32 - p)
  /\ Subnet.usable_hosts (subnetInfo s p h) = capacity p
  /\ Subnet.requested_hosts (subnetInfo s p h) = h
  /\ Subnet.wasted_addresses (subnetInfo s p h) = 2 ^ (32 - p) - h.
Proof.
  unfold subnetInfo, capacity.
  destruct (p =? 32); [|destruct (p =? 31)]; cbn; repeat split; reflexivity.
Qed.

(** ** Block sizes *)

Lemma pow2_block_bounds (p : Z) : 0 <= p <= 32 -> 1 <= 2 ^ (32 - p) <= two32.
Proof.
  intros H. split.
  - pose proof (Z.pow_pos_nonneg 2 (32 - p)). lia.
  - change two32 with (2 ^ 32). apply Z.pow_le_mono_r; lia.
Qed.

Lemma pow2_block_divide (p q : Z) :
  0 <= p <= q -> q <= 32 -> (2 ^ (32 - q) | 2 ^ (32 - p)).
Proof.
  intros H1 H2. exists (2 ^ (q - p)).
  rewrite <- Z.pow_add_r by lia. f_equal. lia.
Qed.

Lemma pow2_block_divide_two32 (p : Z) : 0 <= p <= 32 -> (2 ^ (32 - p) | two32).
Proof.
  intros H. change two32 with (2 ^ (32 - 0)). apply pow2_block_divide; lia.
Qed.

Lemma divide_mod_two32 (b x : Z) : (b | two32) -> (b | x) -> (b | x mod two32).
Proof.
  intros D1 D2. rewrite Z.mod_eq by (unfold two32; lia).
  apply Z.divide_sub_r; [assumption|]. now apply Z.divide_mul_l.
Qed.

(** A multiple of [b] below 2^32 leaves room for a whole block. *)
Lemma aligned_block_fits (b s : Z) :
  0 < b -> (b | two32) -> (b | s) -> 0 <= s < two32 -> s + b <= two32.
Proof.
  intros Hb [m Hm] [k Hk] Hs. subst s. rewrite Hm in *.
  assert (k < m) by nia. nia.
Qed.

Lemma ceilDiv_mul_divide (a b : Z) : 0 < b -> (b | ceilDiv a b * b).
Proof. intros _. apply Z.divide_factor_r. Qed.

Lemma ceilDiv_exact (a b : Z) : 0 < b -> (b | a) -> ceilDiv a b * b = a.
Proof.
  intros Hb [k ->]. unfold ceilDiv.
  replace (- (k * b)) with ((- k) * b) by ring.
  rewrite Z.div_mul by lia. ring.
Qed.

Lemma sumBlocks_acc (reqs : list Req.t) (a : Z) :
  fold_left (fun s r => s + Req.block r) reqs a = a + sumBlocks reqs.
Proof.
  unfold sumBlocks. revert a.
  induction reqs as [|x reqs IH]; intros a; cbn [fold_left]; [lia|].
  rewrite (IH (a + Req.block x)), (IH (0 + Req.block x)). lia.
Qed.

Lemma sumBlocks_cons (r : Req.t) (rest : list Req.t) :
  sumBlocks (r :: rest) = Req.block r + sumBlocks rest.
Proof.
  unfold sumBlocks at 1. cbn [fold_left]. rewrite sumBlocks_acc. lia.
Qed.

(** ** The placement loop *)

(** The accumulator [allocations] is only ever extended. *)
Lemma placeAll_acc (Ps Pe : Z) (reqs : list Req.t) (cur : Z) (acc : list Subnet.t) :
  placeAll Ps Pe reqs cur acc =
    match placeAll Ps Pe reqs cur [] with
    | Ok recs => Ok (acc ++ recs)%list
    | Err e => Err e
    end.
Proof.
  revert cur acc. induction reqs as [|r rest IH]; intros cur acc; cbn [placeAll].
  - now rewrite app_nil_r.
  - cbv zeta.
    destruct (_ >? Pe); [reflexivity|].
    destruct (_ || _); [reflexivity|].
    rewrite IH. rewrite (IH _ ([] ++ _)%list).
    destruct (placeAll Ps Pe rest _ []); [|reflexivity].
    now rewrite <- app_assoc.
Qed.

(** One successful iteration of the loop. *)
Lemma placeAll_cons (Ps Pe : Z) (r : Req.t) (rest : list Req.t) (cur : Z)
      (recs : list Subnet.t) :
  placeAll Ps Pe (r :: rest) cur [] = Ok recs ->
  let s := ushr (ceilDiv cur (Req.block r) * Req.block r) 0 in
  ushr (s + Req.block r - 1) 0 <= Pe
  /\ Ps <= s
  /\ exists recs',
       recs = subnetInfo s (Req.prefix r) (Req.requested r) :: recs'
       /\ placeAll Ps Pe rest (ushr (s + Req.block r) 0) [] = Ok recs'.
Proof.
  cbn [placeAll]. cbv zeta.
  set (s := ushr (ceilDiv cur (Req.block r) * Req.block r) 0).
  destruct (Z.gtb_spec (ushr (s + Req.block r - 1) 0) Pe) as [|G1]; [discriminate|].
  cbn [orb]. rewrite orb_false_r.
  destruct (Z.ltb_spec s Ps) as [|G2]; [discriminate|].
  rewrite placeAll_acc.
  destruct (placeAll Ps Pe rest _ []) as [recs'|] eqn:E; [|discriminate].
  intros [= <-]. repeat split; try assumption.
  exists recs'. split; reflexivity.
Qed.

(** The records correspond one to one, in order, to the requirements. *)
Lemma placeAll_records (Ps Pe : Z) (reqs : list Req.t) (cur : Z)
      (recs : list Subnet.t) :
  placeAll Ps Pe reqs cur [] = Ok recs ->
  Forall2 (fun r rec => exists s,
             rec = subnetInfo s (Req.prefix r) (Req.requested r)) reqs recs.
Proof.
  revert cur recs. induction reqs as [|r rest IH]; intros cur recs H.
  - cbn in H. injection H as <-. constructor.
  - apply placeAll_cons in H as (_ & _ & recs' & -> & H).
    constructor; [eexists; reflexivity | eapply IH; eassumption].
Qed.

(** The arithmetic of one iteration on a resolved requirement: the aligned
    start is a multiple of the block, and no 32-bit wrap-around happens inside
    the block. *)
Lemma aligned_start_facts (r : Req.t) (cur : Z) :
  Resolved r ->
  let b := Req.block r in
  let s := ushr (ceilDiv cur b * b) 0 in
  0 < b /\ (b | two32) /\ 0 <= s < two32 /\ (b | s)
  /\ ushr (s + b - 1) 0 = s + b - 1
  /\ ((b | cur) -> s = cur mod two32).
Proof.
  intros (_ & Rp & Eb & _). cbv zeta. rewrite Eb.
  pose proof (pow2_block_bounds _ Rp) as Bb.
  pose proof (pow2_block_divide_two32 _ Rp) as Db.
  set (b := 2 ^ (32 - Req.prefix r)) in *.
  rewrite !ushr_0. cbn [ToUint32].
  assert (Rs : 0 <= (ceilDiv cur b * b) mod two32 < two32)
    by (apply Z.mod_pos_bound; unfold two32; lia).
  assert (Ds : (b | (ceilDiv cur b * b) mod two32))
    by (apply divide_mod_two32; [assumption | apply Z.divide_factor_r]).
  repeat split; try lia; try assumption.
  - apply Z.mod_small.
    pose proof (aligned_block_fits b _ ltac:(lia) Db Ds Rs). lia.
  - intros D. now rewrite ceilDiv_exact by (assumption || lia).
Qed.

Lemma sumBlocks_nonneg (reqs : list Req.t) :
  Forall Resolved reqs -> 0 <= sumBlocks reqs.
Proof.
  induction 1 as [|r rest (_ & Rp & Eb & _) _ IH]; [reflexivity|].
  rewrite sumBlocks_cons, Eb. pose proof (pow2_block_bounds _ Rp). lia.
Qed.

(** The key invariant.  When the requirements are resolved and in placement
    order, the cursor is a multiple of the next block at every iteration, so
    aligning it changes nothing and the records lie back to back.  The cursor
    cannot wrap around 2^32 before the last record: either the primary range
    ends below 2^32 - 1, or the blocks still to be placed fit under its end. *)
Lemma placeAll_contiguous (Ps Pe : Z) (reqs : list Req.t) :
  Forall Resolved reqs ->
  StronglySorted placedBefore reqs ->
  Pe < two32 ->
  forall (cur : Z) (recs : list Subnet.t),
    match reqs with r :: _ => (Req.block r | cur) | [] => True end ->
    Pe < two32 - 1 \/ cur mod two32 + sumBlocks reqs <= Pe + 1 ->
    placeAll Ps Pe reqs cur [] = Ok recs ->
    Contiguous (cur mod two32) Pe recs.
Proof.
  intros F S HPe. induction reqs as [|r rest IH]; intros cur recs Hdiv Hfit H.
  - cbn in H. injection H as <-. exact I.
  - inversion F as [|? ? Rr Frest]; subst.
    inversion S as [|? ? Srest Fall]; subst.
    apply placeAll_cons in H as (G1 & _ & recs' & -> & Hrest).
    destruct (aligned_start_facts r cur Rr) as (Hb & Db & Rs & Ds & Hw & Hs).
    specialize (Hs Hdiv). cbv zeta in *.
    set (b := Req.block r) in *.
    set (s := ushr (ceilDiv cur b * b) 0) in *.
    rewrite Hw in G1. rewrite <- Hs.
    destruct (subnetInfo_fields s (Req.prefix r) (Req.requested r))
      as (Fn & _ & Ft & _).
    assert (Eb : 2 ^ (32 - Req.prefix r) = b) by (symmetry; apply Rr).
    cbn [Contiguous]. unfold rangeEnd, rangeStart.
    rewrite Fn, Ft, Eb, (ipToInt_intToIp s Rs).
    split; [reflexivity|]. split; [assumption|]. split; [assumption|].
    destruct rest as [|r' rest'].
    + cbn in Hrest. injection Hrest as <-. exact I.
    + inversion Frest as [|? ? Rr' _]; subst.
      inversion Fall as [|? ? Pb _]; subst.
      assert (Dbb : (Req.block r' | b)).
      { assert (Hm : Req.prefix r <= Req.prefix r')
          by (apply Resolved_prefix_mono; try assumption; destruct Pb; lia).
        unfold b. destruct Rr as (_ & Rp & -> & _).
        destruct Rr' as (_ & Rp' & -> & _).
        apply pow2_block_divide; lia. }
      assert (Hb' : 0 < Req.block r').
      { destruct Rr' as (_ & Rp' & -> & _).
        pose proof (pow2_block_bounds _ Rp'). lia. }
      pose proof (sumBlocks_nonneg _ Frest) as N.
      rewrite !sumBlocks_cons in Hfit. rewrite sumBlocks_cons in N.
      assert (Hnw : s + b < two32).
      { destruct Hfit as [Hlt | Hsum]; [lia|]. rewrite <- Hs in Hsum.
        pose proof (sumBlocks_nonneg rest'
                      ltac:(now inversion Frest)). lia. }
      assert (Ec : ushr (s + b) 0 = s + b).
      { rewrite ushr_0. apply ToUint32_small. lia. }
      rewrite Ec in Hrest.
      specialize (IH Frest Srest (s + b) recs').
      rewrite (Z.mod_small (s + b) two32) in IH by lia.
      apply IH; [ | | exact Hrest].
      * apply Z.divide_add_r; [|assumption].
        eapply Z.divide_trans; eassumption.
      * destruct Hfit as [Hlt | Hsum]; [now left | right].
        rewrite <- Hs in Hsum. rewrite sumBlocks_cons. lia.
Qed.

(** ** The CIDR parser *)

Lemma parseCidr_inv (cidr : string) (pr : Cidr.t) :
  parseCidr cidr = Ok pr ->
  exists ip ptxt,
    split "/" cidr = [ip; ptxt]
    /\ lt (parseInt ptxt) 0 = false
    /\ gt (parseInt ptxt) 32 = false
    /\ pr = Cidr.mk (band (ipToInt ip) (maskBits (parseInt ptxt)))
                    (parseInt ptxt)
                    (pow2 (sub 32 (parseInt ptxt)))
                    (ushr (sub (add (band (ipToInt ip) (maskBits (parseInt ptxt)))
                                    (pow2 (sub 32 (parseInt ptxt)))) 1) 0).
Proof.
  unfold parseCidr.
  destruct (split "/" cidr) as [|ip [|ptxt [|x l]]] eqn:S;
    cbn [List.length Nat.eqb negb]; try discriminate.
  cbn [nth].
  destruct (lt (parseInt ptxt) 0) eqn:L; [discriminate|].
  destruct (gt (parseInt ptxt) 32) eqn:G; [discriminate|].
  cbn [orb]. intros E. exists ip, ptxt.
  split; [reflexivity|]. split; [assumption|]. split; [assumption|].
  symmetry. exact (Ok_inj _ _ E).
Qed.

Lemma masks_clear_host_bits :
  forallb (fun n => maskClearsHostBits (Z.of_nat n)) (seq 1 32) = true.
Proof. vm_compute. reflexivity. Qed.

Lemma band_maskBits (x p : Z) :
  0 <= p <= 32 ->
  (2 ^ (32 - p) | band x (maskBits p)) /\ band x (maskBits p) < two32.
Proof.
  intros H. destruct (Z.eq_dec p 0) as [-> | Hp].
  - unfold band. change (ToInt32 (maskBits 0)) with 0. rewrite Z.land_0_r.
    split; [apply Z.divide_0_r | reflexivity].
  - pose proof masks_clear_host_bits as A. rewrite forallb_forall in A.
    specialize (A (Z.to_nat p)). rewrite Z2Nat.id in A by lia.
    assert (I : In (Z.to_nat p) (seq 1 32)) by (apply in_seq; lia).
    apply A, Z.eqb_eq in I. unfold band. rewrite I.
    rewrite <- Z.ldiff_land, Z.ldiff_ones_r by lia.
    rewrite Z.shiftl_mul_pow2, Z.shiftr_div_pow2 by lia.
    split; [apply Z.divide_factor_r|].
    pose proof (ToInt32_range x) as R.
    pose proof (Z.pow_pos_nonneg 2 (32 - p) ltac:(lia) ltac:(lia)) as P.
    pose proof (Z.mul_div_le (ToInt32 x) (2 ^ (32 - p)) P).
    unfold two32, two31 in *. lia.
Qed.

(** What a successfully parsed primary looks like: either the prefix is an
    integer in [0, 32] and the range is an aligned block, or the prefix text
    held no number, the prefix and the total are NaN and the broadcast is 0. *)
Lemma parseCidr_shape (cidr : string) (pr : Cidr.t) :
  parseCidr cidr = Ok pr ->
  (exists p, Cidr.prefix pr = Num p
             /\ 0 <= p <= 32
             /\ Cidr.total pr = Num (2 ^ (32 - p))
             /\ (2 ^ (32 - p) | Cidr.networkInt pr)
             /\ Cidr.networkInt pr < two32
             /\ Cidr.broadcastInt pr
                = Cidr.networkInt pr mod two32 + 2 ^ (32 - p) - 1)
  \/ (Cidr.prefix pr = NaN /\ Cidr.total pr = NaN
      /\ Cidr.broadcastInt pr = 0 /\ Cidr.networkInt pr < two32).
Proof.
  intros H. apply parseCidr_inv in H as (ip & ptxt & _ & L & G & ->).
  destruct (parseInt ptxt) as [p|]; cbn [Cidr.prefix Cidr.total Cidr.networkInt
                                          Cidr.broadcastInt].
  - left. exists p.
    assert (Hp : 0 <= p <= 32).
    { unfold gt, lt in *. apply Z.ltb_ge in L, G. lia. }
    destruct (band_maskBits (ipToInt ip) p Hp) as [D B].
    set (N := band (ipToInt ip) (maskBits p)) in *.
    repeat split; try assumption; try lia.
    cbn [sub pow2 add]. rewrite ushr_0. cbn [ToUint32].
    pose proof (pow2_block_bounds p Hp) as Bb.
    pose proof (pow2_block_divide_two32 p Hp) as Db.
    set (T := 2 ^ (32 - p)) in *.
    assert (RU : 0 <= N mod two32 < two32)
      by (apply Z.mod_pos_bound; unfold two32; lia).
    pose proof (aligned_block_fits T (N mod two32) ltac:(lia) Db
                  (divide_mod_two32 T N Db D) RU) as Fit.
    rewrite (Z.div_mod N two32) at 1 by (unfold two32; lia).
    replace (two32 * (N / two32) + N mod two32 + T - 1)
      with (N mod two32 + T - 1 + (N / two32) * two32) by ring.
    rewrite Z.mod_add by (unfold two32; lia).
    apply Z.mod_small. lia.
  - right. repeat split.
    change (maskBits NaN) with 4294967295. unfold band.
    change (ToInt32 4294967295) with (-1). rewrite Z.land_m1_r.
    pose proof (ToInt32_range (ipToInt ip)). unfold two32, two31 in *. lia.
Qed.

(** ** The allocator as a whole *)

Lemma allocateVlsm_inv (cidr : string) (hosts : list num) (recs : list Subnet.t) :
  allocateVlsm cidr hosts = Ok recs ->
  exists pr resolved,
    parseCidr cidr = Ok pr
    /\ mapM resolve hosts = Ok resolved
    /\ gt (sumBlocks (sort compareReqs resolved)) (Cidr.total pr) = false
    /\ placeAll (Cidr.networkInt pr) (Cidr.broadcastInt pr)
                (sort compareReqs resolved) (Cidr.networkInt pr) [] = Ok recs
    /\ verifyNoOverlaps recs = Ok tt.
Proof.
  unfold allocateVlsm.
  destruct (parseCidr cidr) as [pr|] eqn:P; cbn [bind]; [|discriminate].
  destruct (mapM resolve hosts) as [resolved|] eqn:M; cbn [bind]; [|discriminate].
  fold (sumBlocks (sort compareReqs resolved)).
  destruct (gt _ (Cidr.total pr)) eqn:G; [discriminate|].
  destruct (placeAll _ _ _ _ []) as [allocations|] eqn:L; cbn [bind]; [|discriminate].
  destruct (verifyNoOverlaps allocations) as [[]|] eqn:V; cbn [bind]; [|discriminate].
  intros [= <-]. exists pr, resolved. repeat split; assumption.
Qed.

Lemma parseCidr_broadcast_range (cidr : string) (pr : Cidr.t) :
  parseCidr cidr = Ok pr -> 0 <= Cidr.broadcastInt pr < two32.
Proof.
  intros H. apply parseCidr_inv in H as (ip & ptxt & _ & _ & _ & ->).
  cbn [Cidr.broadcastInt]. apply ushr_0_range.
Qed.

Lemma sorted_resolved (resolved : list Req.t) :
  Forall Resolved resolved ->
  Forall Resolved (sort compareReqs resolved)
  /\ StronglySorted placedBefore (sort compareReqs resolved).
Proof.
  intros F. split; [|apply sort_compareReqs_sorted].
  eapply Permutation_Forall; [symmetry; apply sort_perm | exact F].
Qed.

(** The layout of every successful allocation: the records lie back to back
    from the primary's (unsigned) network address and stay at or below its
    broadcast address. *)
Lemma allocateVlsm_layout (cidr : string) (hosts : list num)
      (recs : list Subnet.t) (pr : Cidr.t) :
  allocateVlsm cidr hosts = Ok recs ->
  parseCidr cidr = Ok pr ->
  Contiguous (ToUint32 (Cidr.networkInt pr)) (Cidr.broadcastInt pr) recs.
Proof.
  intros H P.
  apply allocateVlsm_inv in H as (pr' & resolved & P' & M & G & L & _).
  rewrite P in P'. injection P' as <-.
  apply mapM_resolve in M as [_ F].
  destruct (sorted_resolved _ F) as [Fs Ss].
  pose proof (parseCidr_broadcast_range _ _ P) as RB.
  set (reqs := sort compareReqs resolved) in *.
  cbn [ToUint32].
  apply (placeAll_contiguous _ _ reqs Fs Ss (proj2 RB) _ _) in L;
    [exact L | | ];
    destruct (parseCidr_shape _ _ P)
      as [(p & _ & Hp & Et & Dn & _ & Eb) | (_ & Et & Eb & _)].
  - (* integer prefix: the first block divides the primary's block *)
    destruct reqs as [|r rest] eqn:E; [exact I|].
    rewrite Et in G. unfold gt, lt in G. apply Z.ltb_ge in G.
    rewrite sumBlocks_cons in G.
    inversion Fs as [|? ? Rr Frest]; subst.
    pose proof (sumBlocks_nonneg _ Frest) as N.
    destruct Rr as (_ & Rq & Eq & _). rewrite Eq in *.
    eapply Z.divide_trans; [|exact Dn].
    apply pow2_block_divide; [|lia]. split; [lia|].
    destruct (Z.le_gt_cases p (Req.prefix r)) as [|Hlt]; [assumption|].
    assert (2 ^ (32 - p) < 2 ^ (32 - Req.prefix r))
      by (apply Z.pow_lt_mono_r; lia).
    lia.
  - (* NaN prefix: the broadcast is 0, so a first record forces block 1 *)
    destruct reqs as [|r rest] eqn:E; [exact I|].
    inversion Fs as [|? ? Rr _]; subst.
    apply placeAll_cons in L as (G1 & _).
    destruct (aligned_start_facts r (Cidr.networkInt pr) Rr)
      as (Hb & _ & Rs & _ & Hw & _).
    cbv zeta in *. rewrite Hw, Eb in G1.
    replace (Req.block r) with 1 by lia. apply Z.divide_1_l.
  - right. rewrite Et in G. unfold gt, lt in G. apply Z.ltb_ge in G.
    rewrite Eb. lia.
  - left. rewrite Eb. unfold two32. lia.
Qed.

(** ** Consequences of the layout *)

Lemma Contiguous_within (start limit : Z) (recs : list Subnet.t) :
  Contiguous start limit recs ->
  Forall (fun r => start <= rangeStart r
                   /\ rangeStart r <= rangeEnd r
                   /\ rangeEnd r <= limit) recs.
Proof.
  revert start. induction recs as [|r rest IH]; intros start; cbn [Contiguous].
  - constructor.
  - intros (Es & Ht & He & C). constructor.
    + unfold rangeEnd in *. lia.
    + eapply Forall_impl; [|exact (IH _ C)]. cbv beta. intros a. lia.
Qed.

Lemma Contiguous_sorted (start limit : Z) (recs : list Subnet.t) :
  Contiguous start limit recs ->
  StronglySorted (fun a b => rangeEnd a < rangeStart b) recs.
Proof.
  revert start. induction recs as [|r rest IH]; intros start; cbn [Contiguous].
  - constructor.
  - intros (Es & Ht & He & C). constructor; [exact (IH _ C)|].
    eapply Forall_impl; [|exact (Contiguous_within _ _ _ C)].
    cbv beta. intros a. unfold rangeEnd. lia.
Qed.

Lemma StronglySorted_nth_error {A : Type} (R : A -> A -> Prop) (l : list A) :
  StronglySorted R l ->
  forall (i j : nat) (a b : A),
    (i < j)%nat -> nth_error l i = Some a -> nth_error l j = Some b -> R a b.
Proof.
  induction 1 as [|x l S IH F]; intros i j a b Hij Ha Hb.
  - destruct i; discriminate.
  - destruct j as [|j]; [lia|]. cbn in Hb. destruct i as [|i]; cbn in Ha.
    + injection Ha as <-. rewrite Forall_forall in F.
      eapply F, nth_error_In; eassumption.
    + eapply (IH i j); [lia | eassumption | eassumption].
Qed.

Lemma Forall2_StronglySorted {A B : Type} (P : A -> B -> Prop)
      (R : A -> A -> Prop) (R' : B -> B -> Prop) :
  (forall a a' b b', P a b -> P a' b' -> R a a' -> R' b b') ->
  forall (l : list A) (l' : list B),
    Forall2 P l l' -> StronglySorted R l -> StronglySorted R' l'.
Proof.
  intros T l l' F. induction F as [|a b l l' Pab F IH]; intros S.
  - constructor.
  - inversion S as [|? ? S' Fa]; subst. constructor; [now apply IH|].
    clear IH S S'. induction F as [|a' b' l l' Pab' F IH]; [constructor|].
    inversion Fa; subst. constructor; [eapply T; eassumption | now apply IH].
Qed.

Lemma resolve_prefix (h : num) (r : Req.t) :
  resolve h = Ok r -> calcMinPrefixForHosts (Req.requested r) = Ok (Req.prefix r).
Proof.
  destruct h as [z|]; cbn [resolve]; [|discriminate].
  destruct (z <=? 0); [discriminate|].
  destruct (calcMinPrefixForHosts z) as [p|] eqn:E; cbn [bind]; [|discriminate].
  intros [= <-]. exact E.
Qed.

Lemma mapM_resolve_prefix (hosts : list num) (rs : list Req.t) :
  mapM resolve hosts = Ok rs ->
  Forall (fun r => calcMinPrefixForHosts (Req.requested r) = Ok (Req.prefix r)) rs.
Proof.
  revert rs. induction hosts as [|h hosts IH]; cbn [mapM]; intros rs.
  - intros [= <-]. constructor.
  - destruct (resolve h) as [r|e] eqn:R; cbn [bind]; [|discriminate].
    destruct (mapM resolve hosts) as [rs'|e] eqn:M; cbn [bind]; [|discriminate].
    intros [= <-]. constructor; [eapply resolve_prefix; eassumption | now apply IH].
Qed.

(** Every returned record is [subnetInfo] of a resolved requirement. *)
Lemma allocateVlsm_records (cidr : string) (hosts : list num)
      (recs : list Subnet.t) :
  allocateVlsm cidr hosts = Ok recs ->
  exists reqs,
    Permutation (map (fun r => Num (Req.requested r)) reqs) hosts
    /\ Forall Resolved reqs
    /\ Forall (fun r => calcMinPrefixForHosts (Req.requested r)
                        = Ok (Req.prefix r)) reqs
    /\ StronglySorted placedBefore reqs
    /\ Forall2 (fun r rec => exists s,
                  rec = subnetInfo s (Req.prefix r) (Req.requested r)) reqs recs.
Proof.
  intros H.
  apply allocateVlsm_inv in H as (pr & resolved & _ & M & _ & L & _).
  exists (sort compareReqs resolved).
  pose proof (mapM_resolve_prefix _ _ M) as Fp.
  apply mapM_resolve in M as [-> F].
  destruct (sorted_resolved _ F) as [Fs Ss].
  split; [apply Permutation_map, sort_perm|].
  split; [assumption|].
  split; [eapply Permutation_Forall; [symmetry; apply sort_perm | exact Fp]|].
  split; [assumption|].
  eapply placeAll_records; eassumption.
Qed.

(** ** [parseInt] on digit strings *)

Lemma parseInt_digit_head (c : ascii) (rest : string) (d : Z) :
  digitOf c = Some d ->
  parseInt (String c rest) = Num (1 * digitsValue (d :: leadingDigits rest)).
Proof.
  destruct c as [[] [] [] [] [] [] [] []]; intros H; vm_compute in H;
    try discriminate; injection H as <-; reflexivity.
Qed.

Lemma digits_fold (s : string) (acc : Z) :
  Spec.allDigits s = true ->
  fold_left (fun a d => 10 * a + d) (leadingDigits s) acc
  = acc * 10 ^ Z.of_nat (String.length s) + Spec.decimalValue s.
Proof.
  revert acc. induction s as [|c s IH]; intros acc; cbn [Spec.allDigits
    leadingDigits Spec.decimalValue String.length fold_left].
  - intros _. cbn. lia.
  - destruct (digitOf c) as [d|]; [|discriminate]. intros H.
    cbn [fold_left]. rewrite (IH _ H).
    rewrite Nat2Z.inj_succ, Z.pow_succ_r by lia. ring.
Qed.

Lemma decimalValue_nonneg (s : string) : 0 <= Spec.decimalValue s.
Proof.
  induction s as [|c s IH]; cbn [Spec.decimalValue]; [lia|].
  unfold digitOf. destruct (_ && _)%N eqn:E; [|lia].
  apply andb_true_iff in E as [E1 E2]. apply N.leb_le in E1.
  apply Z.add_nonneg_nonneg; [|assumption].
  apply Z.mul_nonneg_nonneg; [lia | apply Z.pow_nonneg; lia].
Qed.

(** [parseInt] reads an octet group of the specification as its value. *)
Lemma parseInt_octetGroup (g : string) (v : Z) :
  Spec.octetGroup g = Some v -> parseInt g = Num v /\ 0 <= v <= 255.
Proof.
  destruct g as [|c g]; [discriminate|]. unfold Spec.octetGroup.
  destruct (Spec.allDigits (String c g)) eqn:A; [|discriminate].
  destruct (Z.leb_spec (Spec.decimalValue (String c g)) 255) as [L|];
    [|discriminate].
  cbn [andb]. intros E. apply (f_equal (fun o => match o with Some x => x | None => v end)) in E.
  cbv beta iota in E. subst v.
  split; [|pose proof (decimalValue_nonneg (String c g)); lia].
  pose proof (digits_fold _ 0 A) as F.
  cbn [Spec.allDigits] in A. cbn [leadingDigits] in F.
  destruct (digitOf c) as [d|] eqn:D; [|discriminate].
  rewrite (parseInt_digit_head c g d D). unfold digitsValue.
  rewrite F. f_equal. lia.
Qed.

Lemma Forall2_Forall_r {A B : Type} (P : A -> B -> Prop) (Q : A -> Prop)
      (Q' : B -> Prop) :
  (forall a b, P a b -> Q a -> Q' b) ->
  forall (l : list A) (l' : list B), Forall2 P l l' -> Forall Q l -> Forall Q' l'.
Proof.
  intros T l l' F. induction F as [|a b l l' Pab F IH]; intros H; [constructor|].
  inversion H; subst. constructor; [eapply T; eassumption | now apply IH].
Qed.

Lemma Forall2_map_eq {A B C : Type} (P : A -> B -> Prop) (f : A -> C) (g : B -> C) :
  (forall a b, P a b -> f a = g b) ->
  forall (l : list A) (l' : list B), Forall2 P l l' -> map g l' = map f l.
Proof.
  intros T l l' F. induction F as [|a b l l' Pab F IH]; [reflexivity|].
  cbn [map]. now rewrite IH, (T a b Pab).
Qed.

(** ** Which stage throws which error *)

Lemma scanPrefixes_err (n : nat) (h : Z) (e : error) :
  scanPrefixes n h = Err e ->
  e = E_CannotSatisfy /\ forall q, 0 <= q <= Z.of_nat n -> capacity q < h.
Proof.
  induction n as [|n IH]; cbn [scanPrefixes]; cbv zeta; rewrite scan_usable;
    match goal with
    | |- context [capacity ?x >=? h] =>
        destruct (Z.geb_spec (capacity x) h) as [|L]; try discriminate
    end.
  - intros [= <-]. split; [reflexivity|]. intros q Hq.
    replace q with (Z.of_nat 0) by lia. exact L.
  - intros E. destruct (IH E) as [-> M]. split; [reflexivity|]. intros q Hq.
    destruct (Z.eq_dec q (Z.of_nat (S n))) as [-> | Hne]; [exact L|].
    apply M. lia.
Qed.

Lemma parseCidr_error_kinds (cidr : string) (e : error) :
  parseCidr cidr = Err e -> e = E_InvalidCIDR \/ e = E_InvalidPrefix.
Proof.
  unfold parseCidr. destruct (negb _); [intros [= <-]; now left|].
  destruct (_ || _); [intros [= <-]; now right | discriminate].
Qed.

Lemma resolve_error_kinds (h : num) (e : error) :
  resolve h = Err e -> e = E_HostRequirements \/ e = E_CannotSatisfy.
Proof.
  destruct h as [z|]; cbn [resolve]; [|intros [= <-]; now left].
  destruct (Z.leb_spec z 0); [intros [= <-]; now left|].
  cbn [calcMinPrefixForHosts].
  destruct (Z.ltb_spec z 0); [lia|]. destruct (Z.eqb_spec z 0); [lia|].
  destruct (scanPrefixes 32 z) as [p|e'] eqn:S; cbn [bind]; [discriminate|].
  intros [= <-]. apply scanPrefixes_err in S as [-> _]. now right.
Qed.

Lemma mapM_resolve_error_kinds (hosts : list num) (e : error) :
  mapM resolve hosts = Err e -> e = E_HostRequirements \/ e = E_CannotSatisfy.
Proof.
  induction hosts as [|h hosts IH]; cbn [mapM]; [discriminate|].
  destruct (resolve h) as [r|e'] eqn:R; cbn [bind].
  - destruct (mapM resolve hosts) as [rs|e'']; cbn [bind]; [discriminate|].
    intros [= <-]. now apply IH.
  - intros [= <-]. eapply resolve_error_kinds; eassumption.
Qed.

Lemma sumBlocks_perm (l l' : list Req.t) :
  Permutation l l' -> sumBlocks l = sumBlocks l'.
Proof.
  induction 1 as [|x l l' _ IH|x y l|l l' l'' _ IH1 _ IH2];
    rewrite ?sumBlocks_cons; try reflexivity; lia.
Qed.





(** The range test of [parseCidr], case by case on what [parseInt] makes of
    the prefix text: an integer is rejected exactly when it lies outside
    [0, 32]; NaN passes the test. *)
Lemma parseCidr_prefix_guard (cidr ip ptxt : string) :
  split "/" cidr = [ip; ptxt] ->
  match parseInt ptxt with
  | Num p => parseCidr cidr = Err E_InvalidPrefix <-> (p < 0 \/ 32 < p)
  | NaN => exists pr, parseCidr cidr = Ok pr /\ Cidr.prefix pr = NaN
  end.
Proof.
  intros S. unfold parseCidr. rewrite S. cbn [List.length Nat.eqb negb nth].
  destruct (parseInt ptxt) as [p|]; unfold gt, lt.
  - destruct (Z.ltb_spec p 0), (Z.ltb_spec 32 p); cbn [orb];
      split; intros E; try reflexivity; try discriminate; lia.
  - cbn [orb]. eexists. split; reflexivity.
Qed.

(** * The claims *)

(** C1.  For every successful call of [allocateVlsm], the address range
    [network, network + total_addresses - 1] of every returned record lies
    within the primary range [networkInt, broadcastInt] that [parseCidr]
    computes (for the network address as the parser returns it, a signed
    32-bit integer, and for its unsigned reading alike), and the ranges of
    the records at two distinct positions are disjoint. *)
Theorem allocate_ranges_within_primary_and_disjoint
        (cidr : string) (hosts : list num) (recs : list Subnet.t) :
  allocateVlsm cidr hosts = Ok recs ->
  exists primary,
    parseCidr cidr = Ok primary
    /\ (forall r, In r recs ->
          Cidr.networkInt primary <= rangeStart r
          /\ ToUint32 (Cidr.networkInt primary) <= rangeStart r
          /\ rangeStart r <= rangeEnd r
          /\ rangeEnd r <= Cidr.broadcastInt primary)
    /\ (forall (i j : nat) (a b : Subnet.t),
          i <> j -> nth_error recs i = Some a -> nth_error recs j = Some b ->
          rangeEnd a < rangeStart b \/ rangeEnd b < rangeStart a).
Proof.
  intros H.
  destruct (allocateVlsm_inv _ _ _ H) as (pr & _ & P & _).
  exists pr. split; [exact P|].
  pose proof (allocateVlsm_layout _ _ _ _ H P) as C.
  split.
  - pose proof (Contiguous_within _ _ _ C) as W. rewrite Forall_forall in W.
    intros r Hr. destruct (W r Hr) as (W1 & W2 & W3).
    repeat split; try assumption.
    assert (B : Cidr.networkInt pr < two32)
      by (destruct (parseCidr_shape _ _ P) as [(p & ?) | ?]; intuition).
    cbn [ToUint32] in W1.
    destruct (Z.lt_ge_cases (Cidr.networkInt pr) 0) as [Hn | Hn].
    + pose proof (Z.mod_pos_bound (Cidr.networkInt pr) two32 eq_refl). lia.
    + rewrite Z.mod_small in W1 by lia. exact W1.
  - pose proof (Contiguous_sorted _ _ _ C) as S.
    intros i j a b Hij Ha Hb.
    destruct (Nat.lt_total i j) as [Hlt | [Heq | Hgt]]; [left | lia | right].
    + exact (StronglySorted_nth_error _ _ S i j a b Hlt Ha Hb).
    + exact (StronglySorted_nth_error _ _ S j i b a Hgt Hb Ha).
Qed.

Lemma allocate_ranges_within_primary_and_disjoint_witness :
  allocateVlsm "192.168.0.0/24" [Num 50; Num 20; Num 10] = Ok scenarioA
  /\ exists primary,
       parseCidr "192.168.0.0/24" = Ok primary
       /\ (forall r, In r scenarioA ->
             Cidr.networkInt primary <= rangeStart r
             /\ ToUint32 (Cidr.networkInt primary) <= rangeStart r
             /\ rangeStart r <= rangeEnd r
             /\ rangeEnd r <= Cidr.broadcastInt primary)
       /\ (forall (i j : nat) (a b : Subnet.t),
             i <> j -> nth_error scenarioA i = Some a ->
             nth_error scenarioA j = Some b ->
             rangeEnd a < rangeStart b \/ rangeEnd b < rangeStart a).
Proof.
  split; [vm_compute; reflexivity|].
  apply (allocate_ranges_within_primary_and_disjoint
           "192.168.0.0/24" [Num 50; Num 20; Num 10] scenarioA).
  vm_compute; reflexivity.
Defined.

(** C9.  For every successful call of [allocateVlsm], the returned records
    are in strictly increasing address order: the network integer of each
    record is strictly greater than the broadcast integer
    (network + total_addresses - 1) of the record before it. *)
Theorem allocate_records_strictly_increasing
        (cidr : string) (hosts : list num) (recs : list Subnet.t) :
  allocateVlsm cidr hosts = Ok recs ->
  forall (i : nat) (a b : Subnet.t),
    nth_error recs i = Some a -> nth_error recs (S i) = Some b ->
    rangeEnd a < rangeStart b.
Proof.
  intros H i a b Ha Hb.
  destruct (allocateVlsm_inv _ _ _ H) as (pr & _ & P & _).
  pose proof (Contiguous_sorted _ _ _ (allocateVlsm_layout _ _ _ _ H P)) as Srt.
  exact (StronglySorted_nth_error _ _ Srt i (S i) a b (Nat.lt_succ_diag_r i) Ha Hb).
Qed.

Lemma allocate_records_strictly_increasing_witness :
  allocateVlsm "10.0.0.0/16" [Num 1000; Num 2000; Num 50] = Ok scenarioB
  /\ forall (i : nat) (a b : Subnet.t),
       nth_error scenarioB i = Some a -> nth_error scenarioB (S i) = Some b ->
       rangeEnd a < rangeStart b.
Proof.
  split; [vm_compute; reflexivity|].
  apply (allocate_records_strictly_increasing
           "10.0.0.0/16" [Num 1000; Num 2000; Num 50] scenarioB).
  vm_compute; reflexivity.
Defined.

(** C10.  For every successful call of [allocateVlsm], every returned record
    has requested_hosts <= usable_hosts and
    wasted_addresses = total_addresses - requested_hosts >= 0. *)
Theorem allocate_records_accommodate_request
        (cidr : string) (hosts : list num) (recs : list Subnet.t) :
  allocateVlsm cidr hosts = Ok recs ->
  forall r, In r recs ->
    Subnet.requested_hosts r <= Subnet.usable_hosts r
    /\ Subnet.wasted_addresses r
       = Subnet.total_addresses r - Subnet.requested_hosts r
    /\ 0 <= Subnet.wasted_addresses r.
Proof.
  intros H.
  destruct (allocateVlsm_records _ _ _ H) as (reqs & _ & F & _ & _ & F2).
  apply Forall_forall.
  eapply Forall2_Forall_r; [|exact F2|exact F].
  intros q r [s ->] (_ & Rp & _ & Hc & _). cbv beta.
  destruct (subnetInfo_fields s (Req.prefix q) (Req.requested q))
    as (_ & _ & -> & -> & -> & ->).
  pose proof (capacity_le_block _ Rp). lia.
Qed.

Lemma allocate_records_accommodate_request_witness :
  allocateVlsm "192.168.0.0/24" [Num 50; Num 20; Num 10] = Ok scenarioA
  /\ forall r, In r scenarioA ->
       Subnet.requested_hosts r <= Subnet.usable_hosts r
       /\ Subnet.wasted_addresses r
          = Subnet.total_addresses r - Subnet.requested_hosts r
       /\ 0 <= Subnet.wasted_addresses r.
Proof.
  split; [vm_compute; reflexivity|].
  apply (allocate_records_accommodate_request
           "192.168.0.0/24" [Num 50; Num 20; Num 10] scenarioA).
  vm_compute; reflexivity.
Defined.

(** C7.  [allocateVlsm] places the requirements in the order of requested
    hosts descending, ties by derived prefix ascending, and returns the
    records in that placement order: the returned records are a rearrangement
    of the requirements, each at the prefix the sizer derives for it, sorted
    by that order and laid out at increasing addresses.  In particular
    [allocate("10.0.0.0/16", [1000, 2000, 50])] places the 2000-host
    requirement first at 10.0.0.0/21, then the 1000-host one at 10.0.8.0/22,
    then the 50-host one at 10.0.12.0/26. *)
Theorem allocate_placement_order :
  (forall (cidr : string) (hosts : list num) (recs : list Subnet.t),
      allocateVlsm cidr hosts = Ok recs ->
      Permutation (map (fun r => Num (Subnet.requested_hosts r)) recs) hosts
      /\ Forall (fun r => calcMinPrefixForHosts (Subnet.requested_hosts r)
                          = Ok (Subnet.prefix r)) recs
      /\ StronglySorted recordBefore recs
      /\ StronglySorted (fun a b => rangeEnd a < rangeStart b) recs)
  /\ allocateVlsm "10.0.0.0/16" [Num 1000; Num 2000; Num 50] = Ok scenarioB
  /\ map Subnet.requested_hosts scenarioB = [2000; 1000; 50]
  /\ map Subnet.cidr scenarioB = ["10.0.0.0/21"; "10.0.8.0/22"; "10.0.12.0/26"].
Proof.
  split; [|split; [vm_compute; reflexivity | split; reflexivity]].
  intros cidr hosts recs H.
  destruct (allocateVlsm_records _ _ _ H) as (reqs & Pm & F & Fp & S & F2).
  assert (Fields : forall q r,
             (exists s, r = subnetInfo s (Req.prefix q) (Req.requested q)) ->
             Subnet.requested_hosts r = Req.requested q
             /\ Subnet.prefix r = Req.prefix q).
  { intros q r [s ->].
    destruct (subnetInfo_fields s (Req.prefix q) (Req.requested q))
      as (_ & -> & _ & _ & -> & _). split; reflexivity. }
  split; [|split; [|split]].
  - rewrite <- Pm.
    rewrite (Forall2_map_eq _ (fun q => Num (Req.requested q))
                            (fun r => Num (Subnet.requested_hosts r))
                            (fun q r E => f_equal Num (eq_sym (proj1 (Fields q r E))))
                            _ _ F2).
    reflexivity.
  - eapply Forall2_Forall_r; [|exact F2|exact Fp].
    intros q r E Hq. cbv beta in *.
    destruct (Fields q r E) as [-> ->]. exact Hq.
  - eapply Forall2_StronglySorted; [|exact F2|exact S].
    intros q q' r r' E E' Hb. unfold recordBefore, placedBefore in *.
    destruct (Fields q r E) as [-> ->]. destruct (Fields q' r' E') as [-> ->].
    exact Hb.
  - destruct (allocateVlsm_inv _ _ _ H) as (pr & _ & P & _).
    exact (Contiguous_sorted _ _ _ (allocateVlsm_layout _ _ _ _ H P)).
Qed.

Lemma allocate_placement_order_witness :
  allocateVlsm "10.0.0.0/16" [Num 1000; Num 2000; Num 50] = Ok scenarioB
  /\ Permutation (map (fun r => Num (Subnet.requested_hosts r)) scenarioB)
                 [Num 1000; Num 2000; Num 50]
  /\ StronglySorted recordBefore scenarioB.
Proof.
  split; [vm_compute; reflexivity|].
  destruct (proj1 allocate_placement_order
              "10.0.0.0/16" [Num 1000; Num 2000; Num 50] scenarioB)
    as (Pm & _ & Srt & _); [vm_compute; reflexivity|].
  split; assumption.
Defined.

(** C6.  [allocate("192.168.0.0/24", [50, 20, 10])] succeeds and returns
    exactly three records, in order: 192.168.0.0 at prefix 26 (64 addresses,
    62 usable), 192.168.0.64 at prefix 27 (32 addresses, 30 usable) and
    192.168.0.96 at prefix 28 (16 addresses, 14 usable). *)
Theorem allocate_scenario_A :
  allocateVlsm "192.168.0.0/24" [Num 50; Num 20; Num 10] = Ok scenarioA
  /\ map summary scenarioA
     = [ ("192.168.0.0", 26, 64, 62);
         ("192.168.0.64", 27, 32, 30);
         ("192.168.0.96", 28, 16, 14) ].
Proof. split; vm_compute; reflexivity. Qed.

(** C2, as the code has it.  [calcMinPrefixForHosts] returns 32 for host
    count 0, 32 for host count 1 (the scan starts at prefix 32, whose capacity
    is one usable address) and 30 for host count 2. *)
Theorem calcMinPrefixForHosts_small_counts :
  calcMinPrefixForHosts 0 = Ok 32
  /\ calcMinPrefixForHosts 1 = Ok 32
  /\ calcMinPrefixForHosts 2 = Ok 30.
Proof. repeat split. Qed.

(** C2 as stated fails at host count 1: the result is not 30. *)
Lemma calcMinPrefixForHosts_one_is_not_30 :
  ~ (calcMinPrefixForHosts 0 = Ok 32
     /\ calcMinPrefixForHosts 1 = Ok 30
     /\ calcMinPrefixForHosts 2 = Ok 30).
Proof. intros (_ & H & _). vm_compute in H. discriminate. Qed.




(** What [ipToInt] does on every text: it has no validation and never throws,
    it returns an unsigned 32-bit value; and when the text consists of
    exactly 4 dot-separated decimal octet groups each in [0,255], that value
    is the big-endian combination of the octets. *)
Theorem ipToInt_total_and_correct_on_valid (text : string) :
  0 <= ipToInt text < 4294967296
  /\ forall v, Spec.parseAddress text = Some v -> ipToInt text = v.
Proof.
  split; [apply ipToInt_range|].
  intros v. unfold Spec.parseAddress.
  destruct (split "." text) as [|g3 [|g2 [|g1 [|g0 [|x l]]]]] eqn:S;
    cbn [map]; try discriminate;
    repeat match goal with
           | |- context [Spec.octetGroup ?g] =>
               let E := fresh "E" in
               destruct (Spec.octetGroup g) eqn:E; try discriminate
           end.
  intros [= <-].
  match goal with
  | E3 : Spec.octetGroup g3 = Some ?o3, E2 : Spec.octetGroup g2 = Some ?o2,
    E1 : Spec.octetGroup g1 = Some ?o1, E0 : Spec.octetGroup g0 = Some ?o0 |- _ =>
      destruct (parseInt_octetGroup _ _ E3) as [P3 R3];
      destruct (parseInt_octetGroup _ _ E2) as [P2 R2];
      destruct (parseInt_octetGroup _ _ E1) as [P1 R1];
      destruct (parseInt_octetGroup _ _ E0) as [P0 R0]
  end.
  rewrite (ipToInt_groups _ _ _ _ _ _ _ _ _ S P3 P2 P1 P0).
  apply Z.mod_small. unfold two32. lia.
Qed.

Lemma ipToInt_total_and_correct_on_valid_witness :
  Spec.parseAddress "192.168.0.1" = Some 3232235521
  /\ ipToInt "192.168.0.1" = 3232235521.
Proof.
  split; [vm_compute; reflexivity|].
  apply (proj2 (ipToInt_total_and_correct_on_valid "192.168.0.1") 3232235521).
  vm_compute; reflexivity.
Defined.

(** C4, where the code departs from the claim.  [ipToInt] never rejects a
    text: three groups, a non-numeric group or a group above 255 all yield a
    number, although the specification's format rejects them.  [parseCidr],
    which validates the slash and the prefix and which its caller runs to
    reject an invalid primary, therefore accepts "192.168.0/24" (read as
    0.192.168.0) and "hello/24" (read as 0.0.0.0), and the allocator carves
    subnets out of 0.192.168.0/24. *)
Theorem ipToInt_accepts_malformed_text :
  Spec.parseAddress "1.2.3" = None /\ ipToInt "1.2.3" = 66051
  /\ Spec.parseAddress "1.x.3.4" = None /\ ipToInt "1.x.3.4" = 772
  /\ Spec.parseAddress "256.0.0.1" = None /\ ipToInt "256.0.0.1" = 1
  /\ Spec.parseAddress "192.168.0" = None /\ ipToInt "192.168.0" = 12625920
  /\ Spec.parseAddress "hello" = None /\ ipToInt "hello" = 0
  /\ parseCidr "1.2.3/24" = Ok (Cidr.mk 66048 24 256 66303)
  /\ parseCidr "192.168.0/24" = Ok (Cidr.mk 12625920 24 256 12626175)
  /\ parseCidr "hello/24" = Ok (Cidr.mk 0 24 256 255)
  /\ (exists recs, allocateVlsm "192.168.0/24" [Num 50] = Ok recs
                   /\ map Subnet.cidr recs = ["0.192.168.0/26"]).
Proof.
  repeat split; try (vm_compute; reflexivity).
  eexists. split; vm_compute; reflexivity.
Qed.

(** C5, where the code departs from the claim.  A prefix text that holds no
    number parses to NaN; both comparisons of the range test are then false,
    so [parseCidr] does not fail and returns a range whose prefix and total
    are NaN, while a numeric prefix outside [0, 32] is rejected; the
    allocator then fails later with an unrelated placement error. *)
Theorem parseCidr_accepts_non_numeric_prefix :
  parseCidr "10.0.0.0/abc" = Ok (Cidr.mk 167772160 NaN NaN 0)
  /\ parseCidr "10.0.0.0/" = Ok (Cidr.mk 167772160 NaN NaN 0)
  /\ parseCidr "10.0.0.0/33" = Err E_InvalidPrefix
  /\ parseCidr "10.0.0.0/-1" = Err E_InvalidPrefix
  /\ allocateVlsm "10.0.0.0/abc" [Num 5] = Err (E_CannotAllocate 5 29 8).
Proof. repeat split; vm_compute; reflexivity. Qed.

(** C8.  For every prefix p in [0, 32], the mask and the wildcard of p have
    bitwise AND 0 and bitwise OR 0xFFFFFFFF; they are the values that
    [maskFromPrefix] and [wildcardFromPrefix] print. *)
Theorem mask_wildcard_complement (p : Z) :
  0 <= p <= 32 ->
  Z.land (maskBits p) (wildBits p) = 0
  /\ Z.lor (maskBits p) (wildBits p) = 4294967295
  /\ ipToInt (maskFromPrefix p) = maskBits p
  /\ ipToInt (wildcardFromPrefix p) = wildBits p.
Proof.
  intros H.
  assert (A : forallb (fun n => maskWildcardComplement (Z.of_nat n)) (seq 0 33)
              = true) by (vm_compute; reflexivity).
  rewrite forallb_forall in A. specialize (A (Z.to_nat p)).
  rewrite Z2Nat.id in A by lia.
  assert (I : In (Z.to_nat p) (seq 0 33)) by (apply in_seq; lia).
  apply A in I. unfold maskWildcardComplement in I.
  repeat (apply andb_true_iff in I as [I ?]).
  repeat split; now apply Z.eqb_eq.
Qed.

Lemma mask_wildcard_complement_witness :
  Z.land (maskBits 24) (wildBits 24) = 0
  /\ Z.lor (maskBits 24) (wildBits 24) = 4294967295
  /\ ipToInt (maskFromPrefix 24) = maskBits 24
  /\ ipToInt (wildcardFromPrefix 24) = wildBits 24.
Proof. apply (mask_wildcard_complement 24). lia. Defined.

(** * Further properties of the module *)

(** ** Address codec *)

Lemma intToIp_wrap (n : Z) : intToIp n = intToIp (ToUint32 n).
Proof.
  unfold intToIp, ushr. cbn [map ToUint32].
  rewrite Z.mod_mod by (unfold two32; lia). reflexivity.
Qed.

Lemma split_intToIp (s : Z) :
  0 <= s < two32 ->
  split "." (intToIp s)
  = [toString (s / 16777216 mod 256); toString (s / 65536 mod 256);
     toString (s / 256 mod 256); toString (s mod 256)].
Proof.
  intros H.
  assert (B : forall k, 0 <= s / k mod 256 < 256)
    by (intros k; apply Z.mod_pos_bound; lia).
  assert (B0 : 0 <= s mod 256 < 256) by (apply Z.mod_pos_bound; lia).
  rewrite (intToIp_octets s H). cbn [append].
  rewrite !split_app_sep by (apply octet_renders_back, B).
  now rewrite split_no_sep by (apply octet_renders_back, B0).
Qed.

Lemma octets_are_groups :
  forallb (fun n => octetIsGroup (Z.of_nat n)) (seq 0 256) = true.
Proof. vm_compute. reflexivity. Qed.

Lemma octet_is_group (v : Z) :
  0 <= v < 256 -> Spec.octetGroup (toString v) = Some v.
Proof.
  intros H. pose proof octets_are_groups as A.
  rewrite forallb_forall in A. specialize (A (Z.to_nat v)).
  rewrite Z2Nat.id in A by lia.
  assert (I : In (Z.to_nat v) (seq 0 256)) by (apply in_seq; lia).
  apply A in I. unfold octetIsGroup in I.
  destruct (Spec.octetGroup (toString v)) as [z|]; [|discriminate].
  apply Z.eqb_eq in I. now subst.
Qed.

(** X1.  [ipToInt] reads back what [intToIp] prints, for every integer up to
    the 32-bit wrap-around of [>>>]: [ipToInt (intToIp n)] is [n] modulo 2^32.
    The text that [intToIp] prints is always well-formed for the
    specification's address format (four decimal groups in [0,255]). *)
Theorem intToIp_round_trip (n : Z) :
  ipToInt (intToIp n) = n mod 4294967296
  /\ Spec.parseAddress (intToIp n) = Some (n mod 4294967296).
Proof.
  rewrite intToIp_wrap. cbn [ToUint32]. change 4294967296 with two32.
  assert (H : 0 <= n mod two32 < two32)
    by (apply Z.mod_pos_bound; unfold two32; lia).
  set (s := n mod two32) in *.
  split; [apply ipToInt_intToIp, H|].
  unfold Spec.parseAddress. rewrite (split_intToIp s H). cbn [map].
  assert (B : forall k, 0 <= s / k mod 256 < 256)
    by (intros k; apply Z.mod_pos_bound; lia).
  assert (B0 : 0 <= s mod 256 < 256) by (apply Z.mod_pos_bound; lia).
  rewrite !octet_is_group by (apply B || apply B0).
  f_equal. clear - H. unfold two32 in *.
  Z.to_euclidean_division_equations; lia.
Qed.

(** X2.  [intToIp] prints the four octets of an address, most significant
    first, in decimal and separated by dots, and [ipToInt] of that text is
    the address again. *)
Theorem intToIp_prints_octets (a b c d : Z) :
  0 <= a <= 255 -> 0 <= b <= 255 -> 0 <= c <= 255 -> 0 <= d <= 255 ->
  intToIp (a * 16777216 + b * 65536 + c * 256 + d)
  = toString a ++ "." ++ toString b ++ "." ++ toString c ++ "." ++ toString d
  /\ ipToInt (toString a ++ "." ++ toString b ++ "." ++ toString c
              ++ "." ++ toString d)
     = a * 16777216 + b * 65536 + c * 256 + d.
Proof.
  intros Ha Hb Hc Hd.
  set (s := a * 16777216 + b * 65536 + c * 256 + d).
  assert (H : 0 <= s < two32) by (unfold two32, s; lia).
  assert (E : intToIp s
              = toString a ++ "." ++ toString b ++ "." ++ toString c
                ++ "." ++ toString d).
  { rewrite (intToIp_octets s H).
    replace (s / 16777216 mod 256) with a
      by (unfold s; Z.to_euclidean_division_equations; lia).
    replace (s / 65536 mod 256) with b
      by (unfold s; Z.to_euclidean_division_equations; lia).
    replace (s / 256 mod 256) with c
      by (unfold s; Z.to_euclidean_division_equations; lia).
    replace (s mod 256) with d
      by (unfold s; Z.to_euclidean_division_equations; lia).
    reflexivity. }
  split; [exact E|]. rewrite <- E. now apply ipToInt_intToIp.
Qed.

Lemma intToIp_prints_octets_witness :
  intToIp (192 * 16777216 + 168 * 65536 + 0 * 256 + 1)
  = toString 192 ++ "." ++ toString 168 ++ "." ++ toString 0 ++ "." ++ toString 1
  /\ ipToInt (toString 192 ++ "." ++ toString 168 ++ "." ++ toString 0
              ++ "." ++ toString 1)
     = 192 * 16777216 + 168 * 65536 + 0 * 256 + 1.
Proof. apply (intToIp_prints_octets 192 168 0 1); lia. Defined.

(** X3.  Closed forms of the two masks: for a prefix p in [0, 32] the mask is
    2^32 - 2^(32-p) and the wildcard is 2^(32-p) - 1, one less than the block
    size; the texts returned by [maskFromPrefix] and [wildcardFromPrefix]
    denote these values. *)
Theorem mask_wildcard_closed_form (p : Z) :
  0 <= p <= 32 ->
  ipToInt (maskFromPrefix p) = 4294967296 - 2 ^ (32 - p)
  /\ ipToInt (wildcardFromPrefix p) = 2 ^ (32 - p) - 1.
Proof.
  intros H.
  assert (A : forallb (fun n => maskClosedForm (Z.of_nat n)) (seq 0 33) = true)
    by (vm_compute; reflexivity).
  rewrite forallb_forall in A. specialize (A (Z.to_nat p)).
  rewrite Z2Nat.id in A by lia.
  assert (I : In (Z.to_nat p) (seq 0 33)) by (apply in_seq; lia).
  apply A in I. unfold maskClosedForm in I.
  apply andb_true_iff in I as [I1 I2]. apply Z.eqb_eq in I1, I2.
  unfold maskFromPrefix, wildcardFromPrefix.
  pose proof (pow2_block_bounds p H) as B. change two32 with 4294967296 in *.
  rewrite !ipToInt_intToIp by (unfold two32; lia). split; assumption.
Qed.

Lemma mask_wildcard_closed_form_witness :
  ipToInt (maskFromPrefix 26) = 4294967296 - 2 ^ (32 - 26)
  /\ ipToInt (wildcardFromPrefix 26) = 2 ^ (32 - 26) - 1.
Proof. apply (mask_wildcard_closed_form 26). lia. Defined.

(** ** Prefix sizer *)

Lemma capacity_max (p : Z) : 0 <= p <= 32 -> capacity p <= 4294967294.
Proof.
  intros H. unfold capacity.
  destruct (Z.eqb_spec p 32); [lia|]. destruct (Z.eqb_spec p 31); [lia|].
  pose proof (pow2_block_bounds p H). unfold two32 in *. lia.
Qed.

(** X4.  The prefix that [calcMinPrefixForHosts] returns for a host count
    h >= 1 is sufficient and minimal: its usable capacity is at least h, and
    every longer prefix up to 32 has a capacity below h. *)
Theorem calcMinPrefixForHosts_sufficient_and_minimal (h p : Z) :
  1 <= h ->
  calcMinPrefixForHosts h = Ok p ->
  0 <= p <= 32
  /\ h <= capacity p
  /\ forall q, p < q <= 32 -> capacity q < h.
Proof.
  intros Hh. cbn [calcMinPrefixForHosts].
  destruct (Z.ltb_spec h 0); [lia|]. destruct (Z.eqb_spec h 0); [lia|].
  intros S. apply scanPrefixes_spec in S. exact S.
Qed.

Lemma calcMinPrefixForHosts_sufficient_and_minimal_witness :
  calcMinPrefixForHosts 50 = Ok 26
  /\ 0 <= 26 <= 32
  /\ 50 <= capacity 26
  /\ forall q, 26 < q <= 32 -> capacity q < 50.
Proof.
  split; [vm_compute; reflexivity|].
  apply (calcMinPrefixForHosts_sufficient_and_minimal 50 26);
    [lia | vm_compute; reflexivity].
Defined.

(** X5.  The domain of [calcMinPrefixForHosts]: it returns a prefix exactly
    for the integers 0 .. 2^32 - 2; a negative count or NaN is rejected with
    'hosts must be non-negative integer', a count above 2^32 - 2 with
    'cannot satisfy host count'. *)
Theorem calcMinPrefixForHosts_domain (h : Z) :
  calcMinPrefixForHosts NaN = Err E_HostsNonNegative
  /\ (h < 0 -> calcMinPrefixForHosts h = Err E_HostsNonNegative)
  /\ (4294967294 < h -> calcMinPrefixForHosts h = Err E_CannotSatisfy)
  /\ (0 <= h <= 4294967294 -> exists p, calcMinPrefixForHosts h = Ok p).
Proof.
  split; [reflexivity|]. cbn [calcMinPrefixForHosts].
  destruct (Z.ltb_spec h 0) as [Hn|Hn].
  - repeat split; intros; try reflexivity; lia.
  - split; [lia|].
    destruct (Z.eqb_spec h 0) as [->|Hz]; [split; [lia | eexists; reflexivity]|].
    destruct (scanPrefixes 32 h) as [p|e] eqn:S.
    + split; [|eexists; reflexivity]. intros Hbig.
      apply scanPrefixes_spec in S as (R & C & _).
      change (Z.of_nat 32) with 32 in R. pose proof (capacity_max p R). lia.
    + apply scanPrefixes_err in S as [-> M]. split; [reflexivity|].
      intros Hs. specialize (M 0 ltac:(cbn; lia)).
      change (capacity 0) with 4294967294 in M. lia.
Qed.

Lemma calcMinPrefixForHosts_domain_witness :
  exists p, calcMinPrefixForHosts 4294967294 = Ok p.
Proof.
  apply (proj2 (proj2 (proj2 (calcMinPrefixForHosts_domain 4294967294)))). lia.
Defined.

(** X6.  [calcMinPrefixForHosts] is antitone: a larger host count never gets
    a longer prefix. *)
Theorem calcMinPrefixForHosts_antitone (h1 h2 p1 p2 : Z) :
  h1 <= h2 ->
  calcMinPrefixForHosts h1 = Ok p1 ->
  calcMinPrefixForHosts h2 = Ok p2 ->
  p2 <= p1.
Proof.
  intros Hle. cbn [calcMinPrefixForHosts].
  destruct (Z.ltb_spec h1 0); [discriminate|].
  destruct (Z.ltb_spec h2 0); [discriminate|].
  destruct (Z.eqb_spec h2 0) as [->|N2].
  - intros E1 [= <-]. replace h1 with 0 in E1 by lia. cbn in E1.
    injection E1 as <-. lia.
  - intros E1 S2. apply scanPrefixes_spec in S2 as (R2 & C2 & M2).
    change (Z.of_nat 32) with 32 in *.
    destruct (Z.eqb_spec h1 0) as [->|N1]; [injection E1 as <-; lia|].
    apply scanPrefixes_spec in E1 as (R1 & C1 & M1).
    change (Z.of_nat 32) with 32 in *.
    destruct (Z.le_gt_cases p2 p1) as [|G]; [assumption|].
    specialize (M1 p2 ltac:(lia)). lia.
Qed.

Lemma calcMinPrefixForHosts_antitone_witness :
  calcMinPrefixForHosts 50 = Ok 26
  /\ calcMinPrefixForHosts 2000 = Ok 21
  /\ 21 <= 26.
Proof.
  split; [vm_compute; reflexivity|]. split; [vm_compute; reflexivity|].
  apply (calcMinPrefixForHosts_antitone 50 2000 26 21);
    [lia | vm_compute; reflexivity | vm_compute; reflexivity].
Defined.

(** X7.  For a host count h >= 2 the block of the returned prefix is the least
    power of two that holds h + 2 addresses: the prefix is at most 30 and
    h + 2 <= 2^(32-p) < 2 (h + 2).  (For h = 1 the scan stops at prefix 32,
    a block of one address.) *)
Theorem calcMinPrefixForHosts_block_is_least_power_of_two (h p : Z) :
  2 <= h ->
  calcMinPrefixForHosts h = Ok p ->
  0 <= p <= 30
  /\ h + 2 <= 2 ^ (32 - p)
  /\ 2 ^ (32 - p) < 2 * (h + 2).
Proof.
  intros Hh. cbn [calcMinPrefixForHosts].
  destruct (Z.ltb_spec h 0); [lia|]. destruct (Z.eqb_spec h 0); [lia|].
  intros S. apply scanPrefixes_spec in S as (R & C & M).
  change (Z.of_nat 32) with 32 in *.
  assert (P30 : p <= 30).
  { destruct (Z.eq_dec p 32) as [->|]; [cbn in C; lia|].
    destruct (Z.eq_dec p 31) as [->|]; [cbn in C; lia|]. lia. }
  assert (Cp : capacity p = 2 ^ (32 - p) - 2).
  { unfold capacity. destruct (Z.eqb_spec p 32); [lia|].
    destruct (Z.eqb_spec p 31); [lia|]. reflexivity. }
  split; [lia|]. split; [lia|].
  destruct (Z.eq_dec p 30) as [->|N30];
    [change (2 ^ (32 - 30)) with 4; lia|].
  replace (32 - p) with (Z.succ (31 - p)) by lia.
  rewrite Z.pow_succ_r by lia.
  specialize (M (p + 1) ltac:(lia)). unfold capacity in M.
  destruct (Z.eqb_spec (p + 1) 32); [lia|].
  destruct (Z.eqb_spec (p + 1) 31); [lia|].
  replace (32 - (p + 1)) with (31 - p) in M by lia. lia.
Qed.

Lemma calcMinPrefixForHosts_block_is_least_power_of_two_witness :
  calcMinPrefixForHosts 1000 = Ok 22
  /\ 0 <= 22 <= 30
  /\ 1000 + 2 <= 2 ^ (32 - 22)
  /\ 2 ^ (32 - 22) < 2 * (1000 + 2).
Proof.
  split; [vm_compute; reflexivity|].
  apply (calcMinPrefixForHosts_block_is_least_power_of_two 1000 22);
    [lia | vm_compute; reflexivity].
Defined.

(** ** CIDR parser *)

Lemma split_length (sep : ascii) (s : string) :
  List.length (split sep s) = S (countChar sep s).
Proof.
  induction s as [|c s IH]; cbn [split countChar]; [reflexivity|].
  destruct (Ascii.eqb c sep); cbn [List.length]; [now rewrite IH|].
  destruct (split sep s) as [|hd tl]; [discriminate|]. exact IH.
Qed.

(** X8.  [parseCidr] throws 'Invalid CIDR' exactly when the text does not
    hold exactly one slash. *)
Theorem parseCidr_invalid_cidr_iff (cidr : string) :
  parseCidr cidr = Err E_InvalidCIDR <-> countChar "/" cidr <> 1%nat.
Proof.
  unfold parseCidr. rewrite split_length.
  destruct (Nat.eqb_spec (S (countChar "/" cidr)) 2) as [E|N]; cbn [negb].
  - split; [|lia].
    destruct (lt _ 0 || gt _ 32); intros H; discriminate.
  - split; [lia | reflexivity].
Qed.

Lemma split_cidr_text (ip ptxt : string) :
  hasChar "/" ip = false -> hasChar "/" ptxt = false ->
  split "/" (ip ++ "/" ++ ptxt) = [ip; ptxt].
Proof.
  intros Hi Hp. cbn [append].
  now rewrite split_app_sep, split_no_sep.
Qed.

(** X9.  On a text [address/prefix] whose prefix text [parseInt] reads as the
    integer p, [parseCidr] throws 'Invalid prefix' exactly when p lies
    outside [0, 32]. *)
Theorem parseCidr_invalid_prefix_iff (ip ptxt : string) (p : Z) :
  hasChar "/" ip = false -> hasChar "/" ptxt = false ->
  parseInt ptxt = Num p ->
  (parseCidr (ip ++ "/" ++ ptxt) = Err E_InvalidPrefix <-> (p < 0 \/ 32 < p)).
Proof.
  intros Hi Hp P. unfold parseCidr. rewrite (split_cidr_text _ _ Hi Hp).
  cbn [List.length Nat.eqb negb nth]. rewrite P. unfold gt, lt.
  destruct (Z.ltb_spec p 0), (Z.ltb_spec 32 p); cbn [orb];
    split; intros E; try reflexivity; try discriminate; lia.
Qed.

Lemma parseCidr_invalid_prefix_iff_witness :
  parseInt "33" = Num 33
  /\ (parseCidr ("10.0.0.0" ++ "/" ++ "33") = Err E_InvalidPrefix
      <-> (33 < 0 \/ 32 < 33)).
Proof.
  split; [vm_compute; reflexivity|].
  apply (parseCidr_invalid_prefix_iff "10.0.0.0" "33" 33); reflexivity.
Defined.

Lemma band_maskBits_value (x p : Z) :
  1 <= p <= 32 ->
  band x (maskBits p) = ToInt32 x / 2 ^ (32 - p) * 2 ^ (32 - p).
Proof.
  intros H.
  pose proof masks_clear_host_bits as A. rewrite forallb_forall in A.
  specialize (A (Z.to_nat p)). rewrite Z2Nat.id in A by lia.
  assert (I : In (Z.to_nat p) (seq 1 32)) by (apply in_seq; lia).
  apply A, Z.eqb_eq in I. unfold band. rewrite I.
  rewrite <- Z.ldiff_land, Z.ldiff_ones_r by lia.
  now rewrite Z.shiftl_mul_pow2, Z.shiftr_div_pow2 by lia.
Qed.

(** The unsigned reading of [address & mask]: the address with its host bits
    cleared. *)
Lemma band_maskBits_unsigned (a p : Z) :
  0 <= a < two32 -> 0 <= p <= 32 ->
  ToUint32 (band a (maskBits p)) = a / 2 ^ (32 - p) * 2 ^ (32 - p).
Proof.
  intros Ha Hp. destruct (Z.eq_dec p 0) as [-> | Hn].
  - unfold band. change (ToInt32 (maskBits 0)) with 0. rewrite Z.land_0_r.
    change (2 ^ (32 - 0)) with two32. rewrite Z.div_small by lia. reflexivity.
  - rewrite band_maskBits_value by lia. cbn [ToUint32].
    pose proof (pow2_block_bounds p Hp) as Bt.
    destruct (pow2_block_divide_two32 p Hp) as [m Hm].
    set (T := 2 ^ (32 - p)) in *.
    assert (Ei : exists c, ToInt32 a = a + c * two32).
    { pose proof (ToInt32_mod a) as M.
      exists ((ToInt32 a - a) / two32).
      assert (D : (ToInt32 a - a) mod two32 = 0).
      { rewrite Zminus_mod, M, Z.sub_diag. reflexivity. }
      apply Z.mod_divide in D; [|unfold two32; lia]. destruct D as [k D].
      rewrite D, Z.div_mul by (unfold two32; lia). lia. }
    destruct Ei as [c ->]. rewrite Hm.
    replace (a + c * (m * T)) with (a + (c * m) * T) by ring.
    rewrite Z.div_add by lia.
    replace ((a / T + c * m) * T) with (a / T * T + c * (m * T)) by ring.
    rewrite <- Hm, Z.mod_add by (unfold two32; lia).
    apply Z.mod_small.
    pose proof (Z.mul_div_le a T ltac:(lia)).
    pose proof (Z.div_pos a T ltac:(lia) ltac:(lia)). nia.
Qed.

(** The block that [parseCidr] returns for a prefix in [0, 32]. *)
Lemma parseCidr_range_holds (ip ptxt : string) (p : Z) :
  hasChar "/" ip = false -> hasChar "/" ptxt = false ->
  parseInt ptxt = Num p -> 0 <= p <= 32 ->
  exists pr,
    parseCidr (ip ++ "/" ++ ptxt) = Ok pr
    /\ Cidr.prefix pr = Num p
    /\ Cidr.total pr = Num (2 ^ (32 - p))
    /\ ToUint32 (Cidr.networkInt pr)
       = ipToInt ip / 2 ^ (32 - p) * 2 ^ (32 - p)
    /\ Cidr.broadcastInt pr = ToUint32 (Cidr.networkInt pr) + 2 ^ (32 - p) - 1
    /\ ToUint32 (Cidr.networkInt pr) <= ipToInt ip <= Cidr.broadcastInt pr.
Proof.
  intros Hi Hp P R.
  destruct (parseCidr (ip ++ "/" ++ ptxt)) as [pr|e] eqn:E.
  - exists pr. split; [reflexivity|].
    destruct (parseCidr_shape _ _ E)
      as [(p' & Ep & _ & Et & _ & _ & Eb) | (Ep & _)].
    + apply parseCidr_inv in E as (ip' & ptxt' & S & _ & _ & ->).
      rewrite (split_cidr_text _ _ Hi Hp) in S. injection S as <- <-.
      cbn [Cidr.prefix Cidr.networkInt Cidr.total Cidr.broadcastInt] in *.
      rewrite P in *. injection Ep as <-.
      pose proof (band_maskBits_unsigned _ p (ipToInt_range ip) R) as U.
      cbn [ToUint32] in U |- *. rewrite Eb, U.
      repeat split; try assumption.
      * pose proof (pow2_block_bounds p R) as Bt.
        pose proof (Z.mul_div_le (ipToInt ip) (2 ^ (32 - p)) ltac:(lia)). lia.
      * pose proof (pow2_block_bounds p R) as Bt.
        pose proof (Z.mod_pos_bound (ipToInt ip) (2 ^ (32 - p)) ltac:(lia)).
        pose proof (Z.div_mod (ipToInt ip) (2 ^ (32 - p)) ltac:(lia)). lia.
    + apply parseCidr_inv in E as (ip' & ptxt' & S & _ & _ & ->).
      rewrite (split_cidr_text _ _ Hi Hp) in S. injection S as <- <-.
      cbn [Cidr.prefix] in Ep. congruence.
  - exfalso. unfold parseCidr in E. rewrite (split_cidr_text _ _ Hi Hp) in E.
    cbn [List.length Nat.eqb negb nth] in E. rewrite P in E. unfold gt, lt in E.
    destruct (Z.ltb_spec p 0); [lia|]. destruct (Z.ltb_spec 32 p); [lia|].
    discriminate.
Qed.

(** X10.  On a text [address/prefix] with a prefix p in [0, 32], [parseCidr]
    succeeds and returns the block that holds the address: the network
    address is the address with its low 32-p bits cleared (host bits are
    truncated, not rejected), the total is 2^(32-p), the broadcast is the
    last address of the block, and the address lies between the two. *)
Theorem parseCidr_range (ip ptxt : string) (p : Z) :
  hasChar "/" ip = false -> hasChar "/" ptxt = false ->
  parseInt ptxt = Num p -> 0 <= p <= 32 ->
  exists pr,
    parseCidr (ip ++ "/" ++ ptxt) = Ok pr
    /\ Cidr.prefix pr = Num p
    /\ Cidr.total pr = Num (2 ^ (32 - p))
    /\ ToUint32 (Cidr.networkInt pr)
       = ipToInt ip / 2 ^ (32 - p) * 2 ^ (32 - p)
    /\ Cidr.broadcastInt pr = ToUint32 (Cidr.networkInt pr) + 2 ^ (32 - p) - 1
    /\ ToUint32 (Cidr.networkInt pr) <= ipToInt ip <= Cidr.broadcastInt pr.
Proof. exact (parseCidr_range_holds ip ptxt p). Qed.

Lemma parseCidr_range_witness :
  parseInt "24" = Num 24
  /\ exists pr,
       parseCidr ("192.168.0.5" ++ "/" ++ "24") = Ok pr
       /\ Cidr.prefix pr = Num 24
       /\ Cidr.total pr = Num (2 ^ (32 - 24))
       /\ ToUint32 (Cidr.networkInt pr)
          = ipToInt "192.168.0.5" / 2 ^ (32 - 24) * 2 ^ (32 - 24)
       /\ Cidr.broadcastInt pr = ToUint32 (Cidr.networkInt pr) + 2 ^ (32 - 24) - 1
       /\ ToUint32 (Cidr.networkInt pr) <= ipToInt "192.168.0.5"
          <= Cidr.broadcastInt pr.
Proof.
  split; [vm_compute; reflexivity|].
  apply (parseCidr_range "192.168.0.5" "24" 24);
    [reflexivity | reflexivity | vm_compute; reflexivity | lia].
Defined.

Lemma hasChar_app (c : ascii) (a b : string) :
  hasChar c (a ++ b) = hasChar c a || hasChar c b.
Proof.
  induction a as [|x a IH]; cbn [append hasChar]; [reflexivity|].
  now rewrite IH, orb_assoc.
Qed.

Lemma octets_have_no_slash :
  forallb (fun n => octetHasNoSlash (Z.of_nat n)) (seq 0 256) = true.
Proof. vm_compute. reflexivity. Qed.

Lemma octet_has_no_slash (v : Z) :
  0 <= v < 256 -> hasChar "/" (toString v) = false.
Proof.
  intros H. pose proof octets_have_no_slash as A.
  rewrite forallb_forall in A. specialize (A (Z.to_nat v)).
  rewrite Z2Nat.id in A by lia.
  assert (I : In (Z.to_nat v) (seq 0 256)) by (apply in_seq; lia).
  apply A in I. unfold octetHasNoSlash in I. now apply negb_true_iff in I.
Qed.

Lemma intToIp_no_slash (n : Z) : hasChar "/" (intToIp n) = false.
Proof.
  rewrite intToIp_wrap. cbn [ToUint32].
  assert (H : 0 <= n mod two32 < two32)
    by (apply Z.mod_pos_bound; unfold two32; lia).
  rewrite (intToIp_octets _ H). rewrite !hasChar_app.
  assert (B : forall x, 0 <= x mod 256 < 256)
    by (intros x; apply Z.mod_pos_bound; lia).
  rewrite !octet_has_no_slash by apply B. reflexivity.
Qed.

Lemma band_maskBits_int32 (x p : Z) :
  0 <= p <= 32 -> - two31 <= band x (maskBits p) < two31.
Proof.
  intros H. destruct (Z.eq_dec p 0) as [-> | Hn].
  - unfold band. change (ToInt32 (maskBits 0)) with 0. rewrite Z.land_0_r.
    unfold two31. lia.
  - rewrite band_maskBits_value by lia.
    pose proof (ToInt32_range x) as R.
    assert (P : 0 < 2 ^ (32 - p)) by (apply Z.pow_pos_nonneg; lia).
    pose proof (Z.mul_div_le (ToInt32 x) _ P).
    assert (E : two31 = 2 ^ (p - 1) * 2 ^ (32 - p)).
    { rewrite <- Z.pow_add_r by lia. replace (p - 1 + (32 - p)) with 31 by lia.
      reflexivity. }
    assert (L : - 2 ^ (p - 1) <= ToInt32 x / 2 ^ (32 - p)).
    { apply Z.div_le_lower_bound; [exact P|]. lia. }
    split; [|lia]. rewrite E. nia.
Qed.

(** X11.  The canonical text of a parsed range is a fixed point of the
    parser: printing the network address with [intToIp] and the prefix in
    decimal, and parsing that text again, gives the same range. *)
Theorem parseCidr_canonical_text (cidr : string) (pr : Cidr.t) (p : Z) :
  parseCidr cidr = Ok pr ->
  Cidr.prefix pr = Num p ->
  parseCidr (intToIp (Cidr.networkInt pr) ++ "/" ++ toString p) = Ok pr.
Proof.
  intros E Ep.
  apply parseCidr_inv in E as (ip & ptxt & _ & L & G & ->).
  cbn [Cidr.prefix Cidr.networkInt] in *. rewrite Ep in *.
  assert (R : 0 <= p <= 32).
  { unfold gt, lt in *. apply Z.ltb_ge in L, G. lia. }
  set (N := band (ipToInt ip) (maskBits p)).
  pose proof (band_maskBits_int32 (ipToInt ip) p R) as RN. fold N in RN.
  assert (K : band (ipToInt (intToIp N)) (maskBits p) = N).
  { rewrite intToIp_wrap, ipToInt_intToIp by apply ToUint32_range.
    assert (T32 : ToInt32 (ToUint32 N) = N).
    { unfold ToInt32. cbn [ToUint32]. rewrite Z.mod_mod by (unfold two32; lia).
      apply (ToInt32_small N RN). }
    destruct (Z.eq_dec p 0) as [-> | Hn].
    - unfold N, band. change (ToInt32 (maskBits 0)) with 0.
      now rewrite !Z.land_0_r.
    - rewrite band_maskBits_value by lia. rewrite T32.
      destruct (band_maskBits (ipToInt ip) p R) as [[k D] _]. fold N in D.
      assert (P : 0 < 2 ^ (32 - p)) by (apply Z.pow_pos_nonneg; lia).
      rewrite D, Z.div_mul by lia. reflexivity. }
  unfold parseCidr.
  rewrite split_cidr_text
    by (apply intToIp_no_slash || (apply octet_has_no_slash; lia)).
  cbn [List.length Nat.eqb negb nth].
  rewrite (proj2 (octet_renders_back p ltac:(lia))).
  unfold gt, lt. destruct (Z.ltb_spec p 0); [lia|].
  destruct (Z.ltb_spec 32 p); [lia|]. cbn [orb].
  change (if strictEq p 0 then 0 else ushr (shl 4294967295 (sub 32 p)) 0)
    with (maskBits p).
  rewrite K. reflexivity.
Qed.

Lemma parseCidr_canonical_text_witness :
  parseCidr "192.168.0.5/24" = Ok (Cidr.mk (-1062731776) 24 256 3232235775)
  /\ parseCidr (intToIp (-1062731776) ++ "/" ++ toString 24)
     = Ok (Cidr.mk (-1062731776) 24 256 3232235775).
Proof.
  split; [vm_compute; reflexivity|].
  apply (parseCidr_canonical_text "192.168.0.5/24"
           (Cidr.mk (-1062731776) 24 256 3232235775) 24);
    vm_compute; reflexivity.
Defined.

(** ** Subnet records *)

(** The address fields of a record, by the three cases of [subnetInfo]. *)
Lemma subnetInfo_addresses_hold (s p h : Z) :
  0 <= p <= 32 -> 0 <= s -> s + 2 ^ (32 - p) <= 4294967296 ->
  let r := subnetInfo s p h in
  ipToInt (Subnet.network r) = s
  /\ ipToInt (Subnet.broadcast r) = s + 2 ^ (32 - p) - 1
  /\ (p <= 30 ->
        ipToInt (Subnet.first_usable r) = s + 1
        /\ ipToInt (Subnet.last_usable r) = s + 2 ^ (32 - p) - 2
        /\ Subnet.usable_hosts r
           = ipToInt (Subnet.last_usable r) - ipToInt (Subnet.first_usable r) + 1)
  /\ (p = 31 ->
        Subnet.first_usable r = Subnet.network r
        /\ Subnet.last_usable r = Subnet.broadcast r
        /\ Subnet.usable_hosts r = 0)
  /\ (p = 32 ->
        Subnet.first_usable r = Subnet.network r
        /\ Subnet.last_usable r = Subnet.network r
        /\ Subnet.broadcast r = Subnet.network r
        /\ Subnet.usable_hosts r = 1).
Proof.
  intros Hp Hs Hfit. cbv zeta.
  pose proof (pow2_block_bounds p Hp) as Bt. change 4294967296 with two32 in *.
  unfold subnetInfo.
  assert (Eb : ushr (s + 2 ^ (32 - p) - 1) 0 = s + 2 ^ (32 - p) - 1).
  { rewrite ushr_0. apply ToUint32_small. lia. }
  destruct (Z.eqb_spec p 32) as [-> | N32]; [|destruct (Z.eqb_spec p 31) as [-> | N31]];
    cbn [Subnet.network Subnet.broadcast Subnet.first_usable Subnet.last_usable
         Subnet.usable_hosts].
  - change (2 ^ (32 - 32)) with 1 in *.
    rewrite ipToInt_intToIp by lia.
    repeat split; try reflexivity; lia.
  - change (2 ^ (32 - 31)) with 2 in *. rewrite Eb.
    rewrite !ipToInt_intToIp by lia.
    repeat split; try reflexivity; lia.
  - assert (4 <= 2 ^ (32 - p)).
    { change 4 with (2 ^ 2). apply Z.pow_le_mono_r; lia. }
    rewrite Eb.
    assert (E1 : ushr (s + 1) 0 = s + 1)
      by (rewrite ushr_0; apply ToUint32_small; lia).
    assert (E2 : ushr (s + 2 ^ (32 - p) - 1 - 1) 0 = s + 2 ^ (32 - p) - 2)
      by (rewrite ushr_0, ToUint32_small; lia).
    rewrite E1, E2. rewrite !ipToInt_intToIp by lia.
    repeat split; try reflexivity; lia.
Qed.

(** X12.  The address fields of the record that [subnetInfo] builds for a
    block that does not run past 2^32.  The network and broadcast texts
    denote the first and last address of the block.  For a prefix up to 30
    the first and last usable addresses are the ones next to them and
    [usable_hosts] counts the addresses between the two; for prefix 31 they
    are the network and the broadcast themselves while [usable_hosts] is 0;
    for prefix 32 all four texts are the single address and [usable_hosts]
    is 1. *)
Theorem subnetInfo_addresses (s p h : Z) :
  0 <= p <= 32 -> 0 <= s -> s + 2 ^ (32 - p) <= 4294967296 ->
  let r := subnetInfo s p h in
  ipToInt (Subnet.network r) = s
  /\ ipToInt (Subnet.broadcast r) = s + 2 ^ (32 - p) - 1
  /\ (p <= 30 ->
        ipToInt (Subnet.first_usable r) = s + 1
        /\ ipToInt (Subnet.last_usable r) = s + 2 ^ (32 - p) - 2
        /\ Subnet.usable_hosts r
           = ipToInt (Subnet.last_usable r) - ipToInt (Subnet.first_usable r) + 1)
  /\ (p = 31 ->
        Subnet.first_usable r = Subnet.network r
        /\ Subnet.last_usable r = Subnet.broadcast r
        /\ Subnet.usable_hosts r = 0)
  /\ (p = 32 ->
        Subnet.first_usable r = Subnet.network r
        /\ Subnet.last_usable r = Subnet.network r
        /\ Subnet.broadcast r = Subnet.network r
        /\ Subnet.usable_hosts r = 1).
Proof. exact (subnetInfo_addresses_hold s p h). Qed.

Lemma subnetInfo_addresses_witness :
  let r := subnetInfo 3232235584 27 20 in
  ipToInt (Subnet.network r) = 3232235584
  /\ ipToInt (Subnet.broadcast r) = 3232235584 + 2 ^ (32 - 27) - 1
  /\ (27 <= 30 ->
        ipToInt (Subnet.first_usable r) = 3232235584 + 1
        /\ ipToInt (Subnet.last_usable r) = 3232235584 + 2 ^ (32 - 27) - 2
        /\ Subnet.usable_hosts r
           = ipToInt (Subnet.last_usable r) - ipToInt (Subnet.first_usable r) + 1)
  /\ (27 = 31 ->
        Subnet.first_usable r = Subnet.network r
        /\ Subnet.last_usable r = Subnet.broadcast r
        /\ Subnet.usable_hosts r = 0)
  /\ (27 = 32 ->
        Subnet.first_usable r = Subnet.network r
        /\ Subnet.last_usable r = Subnet.network r
        /\ Subnet.broadcast r = Subnet.network r
        /\ Subnet.usable_hosts r = 1).
Proof.
  apply (subnetInfo_addresses 3232235584 27 20); [lia | lia | cbn; lia].
Defined.

(** The [cidr] text of an aligned record, parsed again. *)
Lemma subnetInfo_cidr_parses (s p h : Z) :
  0 <= p <= 32 -> 0 <= s < 4294967296 -> (2 ^ (32 - p) | s) ->
  let r := subnetInfo s p h in
  exists pr,
    parseCidr (Subnet.cidr r) = Ok pr
    /\ Cidr.prefix pr = Num (Subnet.prefix r)
    /\ Cidr.total pr = Num (Subnet.total_addresses r)
    /\ ToUint32 (Cidr.networkInt pr) = rangeStart r
    /\ Cidr.broadcastInt pr = rangeEnd r.
Proof.
  intros Hp Hs [k D]. cbv zeta. change 4294967296 with two32 in *.
  assert (Ec : Subnet.cidr (subnetInfo s p h) = intToIp s ++ "/" ++ toString p).
  { unfold subnetInfo. destruct (p =? 32); [|destruct (p =? 31)]; reflexivity. }
  destruct (subnetInfo_fields s p h) as (Fn & Fp & Ft & _).
  unfold rangeEnd, rangeStart. rewrite Ec, Fn, Fp, Ft.
  destruct (parseCidr_range_holds (intToIp s) (toString p) p)
    as (pr & E & Ep & Et & En & Eb & _);
    [apply intToIp_no_slash | apply octet_has_no_slash; lia
    | apply octet_renders_back; lia | assumption |].
  exists pr. rewrite ipToInt_intToIp in * by assumption.
  assert (P : 0 < 2 ^ (32 - p)) by (apply Z.pow_pos_nonneg; lia).
  rewrite D, Z.div_mul in En by lia. rewrite <- D in En.
  repeat split; try assumption. rewrite Eb, En. reflexivity.
Qed.

(** X13.  The [cidr] text of a record built by [subnetInfo] for an aligned
    block parses back, with [parseCidr], to the range of the record: same
    prefix, same total, the record's network address and its last address. *)
Theorem subnetInfo_cidr_parses_back (s p h : Z) :
  0 <= p <= 32 -> 0 <= s < 4294967296 -> (2 ^ (32 - p) | s) ->
  let r := subnetInfo s p h in
  exists pr,
    parseCidr (Subnet.cidr r) = Ok pr
    /\ Cidr.prefix pr = Num (Subnet.prefix r)
    /\ Cidr.total pr = Num (Subnet.total_addresses r)
    /\ ToUint32 (Cidr.networkInt pr) = rangeStart r
    /\ Cidr.broadcastInt pr = rangeEnd r.
Proof. exact (subnetInfo_cidr_parses s p h). Qed.

Lemma subnetInfo_cidr_parses_back_witness :
  (2 ^ (32 - 27) | 3232235584)
  /\ let r := subnetInfo 3232235584 27 20 in
     exists pr,
       parseCidr (Subnet.cidr r) = Ok pr
       /\ Cidr.prefix pr = Num (Subnet.prefix r)
       /\ Cidr.total pr = Num (Subnet.total_addresses r)
       /\ ToUint32 (Cidr.networkInt pr) = rangeStart r
       /\ Cidr.broadcastInt pr = rangeEnd r.
Proof.
  assert (D : (2 ^ (32 - 27) | 3232235584)) by (exists 101007362; reflexivity).
  split; [exact D|].
  apply (subnetInfo_cidr_parses_back 3232235584 27 20); [lia | lia | exact D].
Defined.

(** ** Allocator *)

(** X14.  [allocateVlsm] succeeds only on host requirements that are all
    integers between 1 and 2^32 - 2: a NaN, a zero, a negative or an
    oversized requirement anywhere in the list makes the whole call fail. *)
Theorem allocateVlsm_success_needs_valid_hosts
        (cidr : string) (hosts : list num) (recs : list Subnet.t) :
  allocateVlsm cidr hosts = Ok recs ->
  Forall (fun h => exists z, h = Num z /\ 1 <= z <= 4294967294) hosts.
Proof.
  intros H.
  destruct (allocateVlsm_records _ _ _ H) as (reqs & Pm & F & _).
  eapply Permutation_Forall; [exact Pm|].
  apply Forall_map. eapply Forall_impl; [|exact F].
  intros r (Hpos & Rp & _ & Hc & _). exists (Req.requested r).
  split; [reflexivity|]. pose proof (capacity_max _ Rp). lia.
Qed.

Lemma allocateVlsm_success_needs_valid_hosts_witness :
  allocateVlsm "192.168.0.0/24" [Num 50; Num 20; Num 10] = Ok scenarioA
  /\ Forall (fun h => exists z, h = Num z /\ 1 <= z <= 4294967294)
            [Num 50; Num 20; Num 10].
Proof.
  split; [vm_compute; reflexivity|].
  apply (allocateVlsm_success_needs_valid_hosts
           "192.168.0.0/24" [Num 50; Num 20; Num 10] scenarioA).
  vm_compute; reflexivity.
Defined.

(** X15.  With no host requirement at all, [allocateVlsm] returns the empty
    list for every primary that [parseCidr] accepts (the capacity check
    compares 0 with the primary's total). *)
Theorem allocateVlsm_no_requirements (cidr : string) (pr : Cidr.t) :
  parseCidr cidr = Ok pr -> allocateVlsm cidr [] = Ok [].
Proof.
  intros P. unfold allocateVlsm. rewrite P. cbn [bind mapM sort fold_right fold_left].
  destruct (parseCidr_shape _ _ P) as [(p & _ & Hp & -> & _) | (_ & -> & _)].
  - unfold gt, lt. pose proof (pow2_block_bounds p Hp).
    destruct (Z.ltb_spec (2 ^ (32 - p)) 0); [lia|]. reflexivity.
  - reflexivity.
Qed.

Lemma allocateVlsm_no_requirements_witness :
  parseCidr "10.0.0.0/8" = Ok (Cidr.mk 167772160 8 16777216 184549375)
  /\ allocateVlsm "10.0.0.0/8" [] = Ok [].
Proof.
  split; [vm_compute; reflexivity|].
  apply (allocateVlsm_no_requirements
           "10.0.0.0/8" (Cidr.mk 167772160 8 16777216 184549375)).
  vm_compute; reflexivity.
Defined.

Lemma Contiguous_nth (start limit : Z) (recs : list Subnet.t) :
  Contiguous start limit recs ->
  (forall r, nth_error recs 0 = Some r -> rangeStart r = start)
  /\ (forall (i : nat) (a b : Subnet.t),
        nth_error recs i = Some a -> nth_error recs (S i) = Some b ->
        rangeStart b = rangeEnd a + 1).
Proof.
  revert start. induction recs as [|r rest IH]; intros start; cbn [Contiguous].
  - intros _. split; [discriminate|]. intros [|i] a b Ha; discriminate.
  - intros (Es & Ht & He & C). destruct (IH _ C) as [IH0 IHs].
    split; [intros r' [= <-]; exact Es|].
    intros [|i] a b Ha Hb; cbn in Ha, Hb.
    + injection Ha as <-. rewrite (IH0 b Hb). unfold rangeEnd. lia.
    + eapply IHs; eassumption.
Qed.

(** X16.  A successful allocation packs the primary from its first address
    without gaps: the first record starts at the primary's network address
    and every further record starts at the address right after the broadcast
    of the record before it; no alignment padding is ever inserted. *)
Theorem allocateVlsm_packs_without_gaps
        (cidr : string) (hosts : list num) (recs : list Subnet.t) (pr : Cidr.t) :
  allocateVlsm cidr hosts = Ok recs ->
  parseCidr cidr = Ok pr ->
  (forall r, nth_error recs 0 = Some r ->
     rangeStart r = ToUint32 (Cidr.networkInt pr))
  /\ (forall (i : nat) (a b : Subnet.t),
        nth_error recs i = Some a -> nth_error recs (S i) = Some b ->
        rangeStart b = rangeEnd a + 1).
Proof.
  intros H P. exact (Contiguous_nth _ _ _ (allocateVlsm_layout _ _ _ _ H P)).
Qed.

Lemma allocateVlsm_packs_without_gaps_witness :
  allocateVlsm "10.0.0.0/16" [Num 1000; Num 2000; Num 50] = Ok scenarioB
  /\ parseCidr "10.0.0.0/16" = Ok (Cidr.mk 167772160 16 65536 167837695)
  /\ (forall r, nth_error scenarioB 0 = Some r -> rangeStart r = ToUint32 167772160)
  /\ (forall (i : nat) (a b : Subnet.t),
        nth_error scenarioB i = Some a -> nth_error scenarioB (S i) = Some b ->
        rangeStart b = rangeEnd a + 1).
Proof.
  split; [vm_compute; reflexivity|]. split; [vm_compute; reflexivity|].
  apply (allocateVlsm_packs_without_gaps
           "10.0.0.0/16" [Num 1000; Num 2000; Num 50] scenarioB
           (Cidr.mk 167772160 16 65536 167837695));
    vm_compute; reflexivity.
Defined.

(** Every placed record is [subnetInfo] of an aligned start below 2^32. *)
Lemma placeAll_aligned (Ps Pe : Z) (reqs : list Req.t) :
  Forall Resolved reqs ->
  forall (cur : Z) (recs : list Subnet.t),
    placeAll Ps Pe reqs cur [] = Ok recs ->
    Forall2 (fun q r => exists s,
               r = subnetInfo s (Req.prefix q) (Req.requested q)
               /\ 0 <= s < two32 /\ (2 ^ (32 - Req.prefix q) | s)) reqs recs.
Proof.
  induction 1 as [|q rest Rq F IH]; intros cur recs H.
  - cbn in H. injection H as <-. constructor.
  - apply placeAll_cons in H as (_ & _ & recs' & -> & H).
    destruct (aligned_start_facts q cur Rq) as (_ & _ & Rs & Ds & _).
    cbv zeta in *. constructor; [|eapply IH; eassumption].
    eexists. split; [reflexivity|]. split; [exact Rs|].
    destruct Rq as (_ & _ & <- & _). exact Ds.
Qed.

(** X17.  Every record of a successful allocation is a proper CIDR block: its
    network address is a multiple of its size, and its [cidr] text parses
    back, with [parseCidr], to exactly the range of the record. *)
Theorem allocateVlsm_records_are_cidr_blocks
        (cidr : string) (hosts : list num) (recs : list Subnet.t) :
  allocateVlsm cidr hosts = Ok recs ->
  forall r, In r recs ->
    (Subnet.total_addresses r | rangeStart r)
    /\ exists pr,
         parseCidr (Subnet.cidr r) = Ok pr
         /\ Cidr.prefix pr = Num (Subnet.prefix r)
         /\ Cidr.total pr = Num (Subnet.total_addresses r)
         /\ ToUint32 (Cidr.networkInt pr) = rangeStart r
         /\ Cidr.broadcastInt pr = rangeEnd r.
Proof.
  intros H.
  destruct (allocateVlsm_inv _ _ _ H) as (pr & resolved & _ & M & _ & L & _).
  apply mapM_resolve in M as [_ F].
  destruct (sorted_resolved _ F) as [Fs _].
  pose proof (placeAll_aligned _ _ _ Fs _ _ L) as A.
  apply Forall_forall.
  eapply Forall2_Forall_r; [|exact A|exact Fs].
  intros q r (s & -> & Rs & Ds) (_ & Rp & _). cbv beta.
  split.
  - destruct (subnetInfo_fields s (Req.prefix q) (Req.requested q))
      as (Fn & _ & Ft & _).
    unfold rangeStart. rewrite Fn, Ft, ipToInt_intToIp by assumption. exact Ds.
  - exact (subnetInfo_cidr_parses s (Req.prefix q) (Req.requested q)
             Rp Rs Ds).
Qed.

Lemma allocateVlsm_records_are_cidr_blocks_witness :
  allocateVlsm "192.168.0.0/24" [Num 50; Num 20; Num 10] = Ok scenarioA
  /\ forall r, In r scenarioA ->
       (Subnet.total_addresses r | rangeStart r)
       /\ exists pr,
            parseCidr (Subnet.cidr r) = Ok pr
            /\ Cidr.prefix pr = Num (Subnet.prefix r)
            /\ Cidr.total pr = Num (Subnet.total_addresses r)
            /\ ToUint32 (Cidr.networkInt pr) = rangeStart r
            /\ Cidr.broadcastInt pr = rangeEnd r.
Proof.
  split; [vm_compute; reflexivity|].
  apply (allocateVlsm_records_are_cidr_blocks
           "192.168.0.0/24" [Num 50; Num 20; Num 10] scenarioA).
  vm_compute; reflexivity.
Defined.

(** The layout of the placement loop inside [allocateVlsm], before the
    overlap verification runs. *)
Lemma placement_layout (cidr : string) (pr : Cidr.t) (resolved : list Req.t)
      (recs : list Subnet.t) :
  parseCidr cidr = Ok pr ->
  Forall Resolved resolved ->
  gt (sumBlocks (sort compareReqs resolved)) (Cidr.total pr) = false ->
  placeAll (Cidr.networkInt pr) (Cidr.broadcastInt pr)
           (sort compareReqs resolved) (Cidr.networkInt pr) [] = Ok recs ->
  Contiguous (ToUint32 (Cidr.networkInt pr)) (Cidr.broadcastInt pr) recs.
Proof.
  intros P F G L.
  destruct (sorted_resolved _ F) as [Fs Ss].
  pose proof (parseCidr_broadcast_range _ _ P) as RB.
  set (reqs := sort compareReqs resolved) in *.
  cbn [ToUint32].
  apply (placeAll_contiguous _ _ reqs Fs Ss (proj2 RB) _ _) in L;
    [exact L | | ];
    destruct (parseCidr_shape _ _ P)
      as [(p & _ & Hp & Et & Dn & _ & Eb) | (_ & Et & Eb & _)].
  - destruct reqs as [|r rest] eqn:E; [exact I|].
    rewrite Et in G. unfold gt, lt in G. apply Z.ltb_ge in G.
    rewrite sumBlocks_cons in G.
    inversion Fs as [|? ? Rr Frest]; subst.
    pose proof (sumBlocks_nonneg _ Frest) as N.
    destruct Rr as (_ & Rq & Eq & _). rewrite Eq in *.
    eapply Z.divide_trans; [|exact Dn].
    apply pow2_block_divide; [|lia]. split; [lia|].
    destruct (Z.le_gt_cases p (Req.prefix r)) as [|Hlt]; [assumption|].
    assert (2 ^ (32 - p) < 2 ^ (32 - Req.prefix r))
      by (apply Z.pow_lt_mono_r; lia).
    lia.
  - destruct reqs as [|r rest] eqn:E; [exact I|].
    inversion Fs as [|? ? Rr _]; subst.
    apply placeAll_cons in L as (G1 & _).
    destruct (aligned_start_facts r (Cidr.networkInt pr) Rr)
      as (Hb & _ & Rs & _ & Hw & _).
    cbv zeta in *. rewrite Hw, Eb in G1.
    replace (Req.block r) with 1 by lia. apply Z.divide_1_l.
  - right. rewrite Et in G. unfold gt, lt in G. apply Z.ltb_ge in G.
    rewrite Eb. lia.
  - left. rewrite Eb. unfold two32. lia.
Qed.

Lemma checkAgainst_after (a : Subnet.t) (later : list Subnet.t) :
  Forall (fun b => rangeEnd a < rangeStart b) later ->
  checkAgainst a later = Ok tt.
Proof.
  induction 1 as [|b later Hb _ IH]; cbn [checkAgainst]; [reflexivity|].
  cbv zeta. fold (rangeStart a) (rangeStart b).
  fold (rangeEnd a) (rangeEnd b).
  destruct (Z.ltb_spec (rangeEnd a) (rangeStart b)); [|lia].
  cbn [orb negb]. exact IH.
Qed.

(** On records in increasing address order the overlap verification passes. *)
Lemma verifyNoOverlaps_sorted (recs : list Subnet.t) :
  StronglySorted (fun a b => rangeEnd a < rangeStart b) recs ->
  verifyNoOverlaps recs = Ok tt.
Proof.
  induction 1 as [|a later _ IH F]; cbn [verifyNoOverlaps]; [reflexivity|].
  rewrite (checkAgainst_after a later F). cbn [bind]. exact IH.
Qed.

(** What the placement loop can do on resolved requirements in placement
    order when the cursor is a multiple of the first block and not below the
    primary's start: it succeeds, or it stops with 'Cannot allocate subnet';
    and it succeeds whenever the blocks fit under the primary's end. *)
Lemma placeAll_outcome (Ps Pe : Z) (reqs : list Req.t) :
  Forall Resolved reqs ->
  StronglySorted placedBefore reqs ->
  Pe < two32 ->
  forall (cur : Z),
    match reqs with r :: _ => (Req.block r | cur) | [] => True end ->
    Ps <= cur mod two32 ->
    Pe < two32 - 1 \/ cur mod two32 + sumBlocks reqs <= Pe + 1 ->
    match placeAll Ps Pe reqs cur [] with
    | Ok _ => True
    | Err e => (exists a b c, e = E_CannotAllocate a b c)
               /\ ~ cur mod two32 + sumBlocks reqs <= Pe + 1
    end.
Proof.
  intros F S HPe. induction reqs as [|r rest IH]; intros cur Hdiv HPs Hfit.
  - exact I.
  - inversion F as [|? ? Rr Frest]; subst.
    inversion S as [|? ? Srest Fall]; subst.
    destruct (aligned_start_facts r cur Rr) as (Hb & Db & Rs & Ds & Hw & Hs).
    specialize (Hs Hdiv). cbv zeta in *.
    pose proof (sumBlocks_nonneg _ Frest) as N.
    cbn [placeAll]. cbv zeta.
    set (b := Req.block r) in *.
    set (s := ushr (ceilDiv cur b * b) 0) in *.
    rewrite Hw. rewrite sumBlocks_cons. rewrite <- Hs in HPs, Hfit |- *.
    destruct (Z.gtb_spec (s + b - 1) Pe) as [G1 | G1].
    { split; [do 3 eexists; reflexivity | lia]. }
    cbn [orb]. destruct (Z.ltb_spec s Ps) as [|G2]; [lia|]. cbn [orb app].
    rewrite placeAll_acc.
    destruct rest as [|r' rest'].
    { cbn [placeAll]. exact I. }
    inversion Frest as [|? ? Rr' Frest']; subst.
    inversion Fall as [|? ? Pb _]; subst.
    assert (Dbb : (Req.block r' | b)).
    { assert (Hm : Req.prefix r <= Req.prefix r')
        by (apply Resolved_prefix_mono; try assumption; destruct Pb; lia).
      unfold b. destruct Rr as (_ & Rp & -> & _).
      destruct Rr' as (_ & Rp' & -> & _).
      apply pow2_block_divide; lia. }
    assert (Hb' : 0 < Req.block r').
    { destruct Rr' as (_ & Rp' & -> & _).
      pose proof (pow2_block_bounds _ Rp'). lia. }
    pose proof (sumBlocks_nonneg _ Frest') as N'.
    rewrite sumBlocks_cons in N. rewrite sumBlocks_cons in Hfit.
    assert (Hnw : s + b < two32).
    { destruct Hfit as [Hlt | Hsum]; [lia|].
      rewrite sumBlocks_cons in Hsum. lia. }
    assert (Ec : ushr (s + b) 0 = s + b).
    { rewrite ushr_0. apply ToUint32_small. lia. }
    rewrite Ec.
    specialize (IH Frest Srest (s + b)).
    rewrite (Z.mod_small (s + b) two32) in IH by lia.
    assert (D' : (Req.block r' | s + b)).
    { apply Z.divide_add_r; [|assumption]. eapply Z.divide_trans; eassumption. }
    assert (Hfit' : Pe < two32 - 1
                    \/ s + b + sumBlocks (r' :: rest') <= Pe + 1).
    { destruct Hfit as [Hlt | Hsum]; [now left | right].
      rewrite !sumBlocks_cons in *. lia. }
    specialize (IH D' ltac:(lia) Hfit').
    destruct (placeAll Ps Pe (r' :: rest') (s + b) []) as [recs'|e]; [exact I|].
    destruct IH as [K NK]. split; [exact K|].
    rewrite !sumBlocks_cons in *. lia.
Qed.

(** The placement loop as [allocateVlsm] runs it: it succeeds or stops with
    'Cannot allocate subnet', and with a numeric prefix it succeeds. *)
Lemma placement_outcome (cidr : string) (pr : Cidr.t) (resolved : list Req.t) :
  parseCidr cidr = Ok pr ->
  Forall Resolved resolved ->
  gt (sumBlocks (sort compareReqs resolved)) (Cidr.total pr) = false ->
  match placeAll (Cidr.networkInt pr) (Cidr.broadcastInt pr)
                 (sort compareReqs resolved) (Cidr.networkInt pr) [] with
  | Ok _ => True
  | Err e => (exists a b c, e = E_CannotAllocate a b c) /\ Cidr.prefix pr = NaN
  end.
Proof.
  intros P F G.
  destruct (sorted_resolved _ F) as [Fs Ss].
  pose proof (parseCidr_broadcast_range _ _ P) as RB.
  set (reqs := sort compareReqs resolved) in *.
  assert (HPs : Cidr.networkInt pr <= Cidr.networkInt pr mod two32).
  { assert (B : Cidr.networkInt pr < two32)
      by (destruct (parseCidr_shape _ _ P) as [(p & ?) | ?]; intuition).
    destruct (Z.lt_ge_cases (Cidr.networkInt pr) 0) as [Hn | Hn].
    - pose proof (Z.mod_pos_bound (Cidr.networkInt pr) two32 eq_refl). lia.
    - rewrite Z.mod_small by lia. lia. }
  destruct (parseCidr_shape _ _ P)
    as [(p & _ & Hp & Et & Dn & _ & Eb) | (Ep & Et & Eb & _)].
  - (* integer prefix: the blocks fit, the loop succeeds *)
    rewrite Et in G. unfold gt, lt in G. apply Z.ltb_ge in G.
    assert (Hdiv : match reqs with
                   | r :: _ => (Req.block r | Cidr.networkInt pr)
                   | [] => True
                   end).
    { destruct reqs as [|r rest] eqn:E; [exact I|].
      rewrite sumBlocks_cons in G.
      inversion Fs as [|? ? Rr Frest]; subst.
      pose proof (sumBlocks_nonneg _ Frest) as N.
      destruct Rr as (_ & Rq & Eq & _). rewrite Eq in *.
      eapply Z.divide_trans; [|exact Dn].
      apply pow2_block_divide; [|lia]. split; [lia|].
      destruct (Z.le_gt_cases p (Req.prefix r)) as [|Hlt]; [assumption|].
      assert (2 ^ (32 - p) < 2 ^ (32 - Req.prefix r))
        by (apply Z.pow_lt_mono_r; lia).
      lia. }
    assert (Hfit : Cidr.networkInt pr mod two32 + sumBlocks reqs
                   <= Cidr.broadcastInt pr + 1) by (rewrite Eb; lia).
    pose proof (placeAll_outcome _ _ reqs Fs Ss (proj2 RB) _ Hdiv HPs
                  (or_intror Hfit)) as O.
    destruct (placeAll _ _ reqs _ []); [exact I|]. destruct O as [_ NO]. tauto.
  - (* NaN prefix: the broadcast is 0 *)
    destruct reqs as [|r rest] eqn:E; [exact I|].
    inversion Fs as [|? ? Rr Frest]; subst.
    destruct (Z.eq_dec (Req.block r) 1) as [E1 | N1].
    + assert (HB : Cidr.broadcastInt pr < two32 - 1)
        by (rewrite Eb; unfold two32; lia).
      assert (D1 : (Req.block r | Cidr.networkInt pr))
        by (rewrite E1; apply Z.divide_1_l).
      pose proof (placeAll_outcome _ _ (r :: rest) Fs Ss (proj2 RB)
                    (Cidr.networkInt pr) D1 HPs (or_introl HB)) as O.
      destruct (placeAll _ _ (r :: rest) _ []); [exact I|].
      destruct O as [K _]. split; assumption.
    + destruct (aligned_start_facts r (Cidr.networkInt pr) Rr)
        as (Hb & _ & Rs & _ & Hw & _).
      cbn [placeAll]. cbv zeta in *. rewrite Hw, Eb.
      destruct (Z.gtb_spec
                  (ushr (ceilDiv (Cidr.networkInt pr) (Req.block r)
                         * Req.block r) 0 + Req.block r - 1) 0); [|lia].
      split; [do 3 eexists; reflexivity | exact Ep].
Qed.

(** Every failure of [allocateVlsm], by the stage that throws. *)
Lemma allocateVlsm_errors (cidr : string) (hosts : list num) (e : error) :
  allocateVlsm cidr hosts = Err e ->
  e = E_InvalidCIDR
  \/ e = E_InvalidPrefix
  \/ e = E_HostRequirements
  \/ e = E_CannotSatisfy
  \/ (exists s t, e = E_RequirementsNeed s t)
  \/ ((exists a b c, e = E_CannotAllocate a b c)
      /\ exists pr, parseCidr cidr = Ok pr /\ Cidr.prefix pr = NaN).
Proof.
  unfold allocateVlsm.
  destruct (parseCidr cidr) as [pr|e1] eqn:P; cbn [bind].
  2:{ intros [= <-]. destruct (parseCidr_error_kinds _ _ P); auto. }
  destruct (mapM resolve hosts) as [resolved|e2] eqn:M; cbn [bind].
  2:{ intros [= <-]. destruct (mapM_resolve_error_kinds _ _ M); auto. }
  fold (sumBlocks (sort compareReqs resolved)).
  destruct (gt _ (Cidr.total pr)) eqn:G.
  { intros [= <-]. do 4 right. left. do 2 eexists. reflexivity. }
  apply mapM_resolve in M as [_ F].
  pose proof (placement_outcome _ _ _ P F G) as O.
  destruct (placeAll _ _ _ _ []) as [recs|e3] eqn:L; cbn [bind].
  - pose proof (placement_layout cidr pr resolved recs P F G L) as Lay.
    rewrite (verifyNoOverlaps_sorted _ (Contiguous_sorted _ _ _ Lay)).
    cbn [bind]. discriminate.
  - intros [= <-]. destruct O as [K Ep]. do 5 right.
    split; [exact K|]. exists pr. split; [reflexivity | exact Ep].
Qed.

(** X18.  The only ways [allocateVlsm] fails.  Every failure is one of the
    validation errors ('Invalid CIDR', 'Invalid prefix', 'host requirements
    must be positive integers', 'cannot satisfy host count'), the capacity
    error 'Requirements need ..', or 'Cannot allocate subnet ..'; and the
    last one occurs only when the prefix text held no number (NaN prefix).
    'Allocated network falls outside primary', 'Overlap between ..' and
    'hosts must be non-negative integer' are never thrown. *)
Theorem allocateVlsm_error_kinds (cidr : string) (hosts : list num) (e : error) :
  allocateVlsm cidr hosts = Err e ->
  e = E_InvalidCIDR
  \/ e = E_InvalidPrefix
  \/ e = E_HostRequirements
  \/ e = E_CannotSatisfy
  \/ (exists s t, e = E_RequirementsNeed s t)
  \/ ((exists a b c, e = E_CannotAllocate a b c)
      /\ exists pr, parseCidr cidr = Ok pr /\ Cidr.prefix pr = NaN).
Proof. exact (allocateVlsm_errors cidr hosts e). Qed.

Lemma allocateVlsm_error_kinds_witness :
  allocateVlsm "192.168.1.0/30" [Num 3] = Err (E_RequirementsNeed 8 4)
  /\ (E_RequirementsNeed 8 4 = E_InvalidCIDR
      \/ E_RequirementsNeed 8 4 = E_InvalidPrefix
      \/ E_RequirementsNeed 8 4 = E_HostRequirements
      \/ E_RequirementsNeed 8 4 = E_CannotSatisfy
      \/ (exists s t, E_RequirementsNeed 8 4 = E_RequirementsNeed s t)
      \/ ((exists a b c, E_RequirementsNeed 8 4 = E_CannotAllocate a b c)
          /\ exists pr, parseCidr "192.168.1.0/30" = Ok pr
                        /\ Cidr.prefix pr = NaN)).
Proof.
  split; [vm_compute; reflexivity|].
  apply (allocateVlsm_error_kinds "192.168.1.0/30" [Num 3]).
  vm_compute; reflexivity.
Defined.

(** X19.  For a primary with a numeric prefix p and host requirements that
    all resolve, [allocateVlsm] succeeds exactly when the blocks sum to at
    most 2^(32-p): once the capacity check passes, neither the placement
    loop nor the overlap verification can fail. *)
Theorem allocateVlsm_succeeds_iff_capacity
        (cidr : string) (hosts : list num) (pr : Cidr.t) (p : Z)
        (resolved : list Req.t) :
  parseCidr cidr = Ok pr ->
  Cidr.prefix pr = Num p ->
  mapM resolve hosts = Ok resolved ->
  ((exists recs, allocateVlsm cidr hosts = Ok recs)
   <-> sumBlocks resolved <= 2 ^ (32 - p)).
Proof.
  intros P Ep M.
  assert (Et : Cidr.total pr = Num (2 ^ (32 - p))).
  { destruct (parseCidr_shape _ _ P) as [(p' & Ep' & _ & Et & _) | (Ep' & _)];
      congruence. }
  pose proof (sumBlocks_perm _ _ (sort_perm compareReqs resolved)) as Es.
  unfold allocateVlsm. rewrite P, M. cbn [bind].
  fold (sumBlocks (sort compareReqs resolved)).
  destruct (gt _ (Cidr.total pr)) eqn:G.
  - rewrite Et in G. unfold gt, lt in G. apply Z.ltb_lt in G.
    split; [intros [recs H]; discriminate | lia].
  - pose proof (proj2 (mapM_resolve _ _ M)) as F.
    pose proof (placement_outcome _ _ _ P F G) as O.
    rewrite Et in G. unfold gt, lt in G. apply Z.ltb_ge in G.
    split; [lia|]. intros _.
    destruct (placeAll _ _ _ _ []) as [recs|e3] eqn:L; cbn [bind].
    + assert (G' : gt (sumBlocks (sort compareReqs resolved)) (Cidr.total pr)
                   = false)
        by (rewrite Et; unfold gt, lt; apply Z.ltb_ge; lia).
      pose proof (placement_layout cidr pr resolved recs P F G' L) as Lay.
      rewrite (verifyNoOverlaps_sorted _ (Contiguous_sorted _ _ _ Lay)).
      cbn [bind]. eexists. reflexivity.
    + destruct O as [_ EN]. congruence.
Qed.

Lemma allocateVlsm_succeeds_iff_capacity_witness :
  parseCidr "192.168.1.0/30" = Ok (Cidr.mk (-1062731520) 30 4 3232235779)
  /\ mapM resolve [Num 2] = Ok [Req.mk 2 30 4]
  /\ ((exists recs, allocateVlsm "192.168.1.0/30" [Num 2] = Ok recs)
      <-> sumBlocks [Req.mk 2 30 4] <= 2 ^ (32 - 30)).
Proof.
  split; [vm_compute; reflexivity|]. split; [vm_compute; reflexivity|].
  apply (allocateVlsm_succeeds_iff_capacity
           "192.168.1.0/30" [Num 2] (Cidr.mk (-1062731520) 30 4 3232235779) 30
           [Req.mk 2 30 4]);
    vm_compute; reflexivity.
Defined.

Lemma mapM_resolve_map (hosts : list num) (rs : list Req.t) :
  mapM resolve hosts = Ok rs <->
  (rs = map resolved_or_default hosts
   /\ Forall (fun h => exists r, resolve h = Ok r) hosts).
Proof.
  revert rs. induction hosts as [|h hosts IH]; intros rs; cbn [mapM map].
  - split; [intros [= <-]; split; [reflexivity | constructor]|].
    intros [-> _]. reflexivity.
  - unfold resolved_or_default at 1.
    destruct (resolve h) as [r|e] eqn:R; cbn [bind].
    + destruct (mapM resolve hosts) as [rs'|e] eqn:M; cbn [bind].
      * destruct (proj1 (IH rs') eq_refl) as [-> F].
        split; [intros [= <-]; split; [reflexivity|]|intros [-> _]; reflexivity].
        constructor; [eexists; eassumption | exact F].
      * split; [discriminate|]. intros [-> F]. inversion F as [|? ? _ F']; subst.
        pose proof (proj2 (IH _) (conj eq_refl F')). discriminate.
    + split; [discriminate|]. intros [_ F]. inversion F as [|? ? [r Hr] _]; subst.
      congruence.
Qed.

Lemma Resolved_antisym (a b : Req.t) :
  Resolved a -> Resolved b -> placedBefore a b -> placedBefore b a -> a = b.
Proof.
  intros (_ & _ & Ea & _) (_ & _ & Eb & _) Hab Hba.
  unfold placedBefore in *.
  destruct a as [ra pa ba], b as [rb pb bb]; cbn in *.
  assert (ra = rb) by lia. assert (pa = pb) by lia. subst. reflexivity.
Qed.

Lemma sorted_perm_unique {A : Type} (R : A -> A -> Prop) (l : list A) :
  (forall a b, In a l -> In b l -> R a b -> R b a -> a = b) ->
  StronglySorted R l ->
  forall l', StronglySorted R l' -> Permutation l l' -> l = l'.
Proof.
  intros Anti S. induction S as [|a t St IH Fa]; intros l' S' Pm.
  - apply Permutation_nil in Pm. now subst.
  - destruct S' as [|a' t' St' Fa'].
    { apply Permutation_sym, Permutation_nil in Pm. discriminate. }
    assert (Eaa : a = a').
    { assert (Ia : In a (a' :: t'))
        by (eapply Permutation_in; [exact Pm | now left]).
      assert (Ia' : In a' (a :: t))
        by (eapply Permutation_in; [symmetry; exact Pm | now left]).
      destruct Ia as [E | Ia]; [now subst|].
      destruct Ia' as [E | Ia']; [now subst|].
      rewrite Forall_forall in Fa, Fa'.
      apply Anti; [now left | now right | now apply Fa | now apply Fa']. }
    subst a'. f_equal.
    apply IH; [|exact St'|eapply Permutation_cons_inv; exact Pm].
    intros x y Hx Hy. apply Anti; now right.
Qed.

Lemma sort_compareReqs_perm_eq (l l' : list Req.t) :
  Forall Resolved l -> Permutation l l' ->
  sort compareReqs l = sort compareReqs l'.
Proof.
  intros F Pm.
  assert (F' : Forall Resolved l') by (eapply Permutation_Forall; eassumption).
  destruct (sorted_resolved _ F) as [Fs Ss].
  destruct (sorted_resolved _ F') as [Fs' Ss'].
  apply (sorted_perm_unique placedBefore); try assumption.
  - rewrite Forall_forall in Fs. intros a b Ha Hb.
    apply Resolved_antisym; now apply Fs.
  - rewrite (sort_perm compareReqs l), Pm. symmetry. apply sort_perm.
Qed.

(** X20.  The order of the host requirements does not matter: a successful
    allocation of a list is also the allocation of every rearrangement of
    that list. *)
Theorem allocateVlsm_order_independent
        (cidr : string) (hosts hosts' : list num) (recs : list Subnet.t) :
  Permutation hosts hosts' ->
  allocateVlsm cidr hosts = Ok recs ->
  allocateVlsm cidr hosts' = Ok recs.
Proof.
  intros Pm H.
  destruct (allocateVlsm_inv _ _ _ H) as (pr & resolved & P & M & _).
  pose proof (proj2 (mapM_resolve _ _ M)) as F.
  apply mapM_resolve_map in M as [-> Fh].
  assert (M' : mapM resolve hosts' = Ok (map resolved_or_default hosts')).
  { apply mapM_resolve_map. split; [reflexivity|].
    eapply Permutation_Forall; eassumption. }
  assert (M0 : mapM resolve hosts = Ok (map resolved_or_default hosts)).
  { apply mapM_resolve_map. split; [reflexivity | assumption]. }
  assert (Es : sort compareReqs (map resolved_or_default hosts)
               = sort compareReqs (map resolved_or_default hosts'))
    by (apply sort_compareReqs_perm_eq; [exact F | now apply Permutation_map]).
  rewrite <- H. unfold allocateVlsm. rewrite P, M', M0. cbn [bind].
  rewrite Es. reflexivity.
Qed.

Lemma allocateVlsm_order_independent_witness :
  Permutation [Num 1000; Num 2000; Num 50] [Num 50; Num 1000; Num 2000]
  /\ allocateVlsm "10.0.0.0/16" [Num 1000; Num 2000; Num 50] = Ok scenarioB
  /\ allocateVlsm "10.0.0.0/16" [Num 50; Num 1000; Num 2000] = Ok scenarioB.
Proof.
  assert (Pm : Permutation [Num 1000; Num 2000; Num 50]
                           [Num 50; Num 1000; Num 2000]).
  { apply Permutation_sym, perm_trans with [Num 1000; Num 50; Num 2000].
    - apply perm_swap.
    - apply perm_skip, perm_swap. }
  split; [exact Pm|]. split; [vm_compute; reflexivity|].
  apply (allocateVlsm_order_independent
           "10.0.0.0/16" [Num 1000; Num 2000; Num 50]
           [Num 50; Num 1000; Num 2000] scenarioB Pm).
  vm_compute; reflexivity.
Defined.

Lemma block_le_sumBlocks (reqs : list Req.t) (q : Req.t) :
  Forall Resolved reqs -> In q reqs -> Req.block q <= sumBlocks reqs.
Proof.
  induction 1 as [|r rest Rr F IH]; intros I; [contradiction|].
  rewrite sumBlocks_cons. pose proof (sumBlocks_nonneg _ F) as N.
  destruct Rr as (_ & Rp & Eb & _). pose proof (pow2_block_bounds _ Rp).
  destruct I as [-> | I]; [lia|]. specialize (IH I). lia.
Qed.

Lemma Forall2_In_r {A B : Type} (P : A -> B -> Prop) (l : list A) (l' : list B) :
  Forall2 P l l' -> forall b, In b l' -> exists a, In a l /\ P a b.
Proof.
  induction 1 as [|a b l l' Pab F IH]; intros x I; [contradiction|].
  destruct I as [<- | I]; [exists a; split; [now left | exact Pab]|].
  destruct (IH x I) as (a' & Ia & Pa). exists a'. split; [now right | exact Pa].
Qed.

(** X21.  The prefixes of a successful allocation.  Every record has a prefix
    in [0, 32] other than 31, sized 2^(32-prefix); prefix 32 is given exactly
    to the requirements of one host; and no record is larger than the
    primary: with a primary of numeric prefix p, every record's prefix is at
    least p. *)
Theorem allocateVlsm_record_prefixes
        (cidr : string) (hosts : list num) (recs : list Subnet.t) :
  allocateVlsm cidr hosts = Ok recs ->
  forall r, In r recs ->
    0 <= Subnet.prefix r <= 32
    /\ Subnet.prefix r <> 31
    /\ (Subnet.prefix r = 32 <-> Subnet.requested_hosts r = 1)
    /\ Subnet.total_addresses r = 2 ^ (32 - Subnet.prefix r)
    /\ forall pr p, parseCidr cidr = Ok pr -> Cidr.prefix pr = Num p ->
                    p <= Subnet.prefix r.
Proof.
  intros H r Ir.
  destruct (allocateVlsm_inv _ _ _ H) as (pr0 & resolved & P & M & G & L & _).
  apply mapM_resolve in M as [_ F].
  destruct (sorted_resolved _ F) as [Fs _].
  destruct (Forall2_In_r _ _ _ (placeAll_records _ _ _ _ _ L) r Ir)
    as (q & Iq & s & ->).
  destruct (subnetInfo_fields s (Req.prefix q) (Req.requested q))
    as (_ & -> & -> & _ & -> & _).
  pose proof (block_le_sumBlocks _ q Fs Iq) as Bq.
  rewrite Forall_forall in Fs. destruct (Fs q Iq) as (Hpos & Rp & Eb & Hc & Hm).
  split; [exact Rp|]. split; [|split; [|split; [reflexivity|]]].
  - intros E31. rewrite E31 in Hc. cbn in Hc. lia.
  - split.
    + intros E32. rewrite E32 in Hc. cbn in Hc. lia.
    + intros E1. destruct (Z.eq_dec (Req.prefix q) 32) as [|N]; [assumption|].
      specialize (Hm 32 ltac:(lia)). cbn in Hm. lia.
  - intros pr p P' Ep. rewrite P in P'. injection P' as <-.
    destruct (parseCidr_shape _ _ P) as [(p' & Ep' & Hp & Et & _) | (Ep' & _)];
      [|congruence].
    rewrite Ep in Ep'. injection Ep' as <-.
    rewrite Et in G. unfold gt, lt in G. apply Z.ltb_ge in G.
    rewrite Eb in Bq.
    destruct (Z.le_gt_cases p (Req.prefix q)) as [|Hlt]; [assumption|].
    assert (2 ^ (32 - p) < 2 ^ (32 - Req.prefix q))
      by (apply Z.pow_lt_mono_r; lia).
    lia.
Qed.

Lemma allocateVlsm_record_prefixes_witness :
  allocateVlsm "192.168.0.0/24" [Num 50; Num 20; Num 10] = Ok scenarioA
  /\ forall r, In r scenarioA ->
       0 <= Subnet.prefix r <= 32
       /\ Subnet.prefix r <> 31
       /\ (Subnet.prefix r = 32 <-> Subnet.requested_hosts r = 1)
       /\ Subnet.total_addresses r = 2 ^ (32 - Subnet.prefix r)
       /\ forall pr p, parseCidr "192.168.0.0/24" = Ok pr ->
                       Cidr.prefix pr = Num p -> p <= Subnet.prefix r.
Proof.
  split; [vm_compute; reflexivity|].
  apply (allocateVlsm_record_prefixes
           "192.168.0.0/24" [Num 50; Num 20; Num 10] scenarioA).
  vm_compute; reflexivity.
Defined.

Lemma totalAllocated_sumBlocks (reqs : list Req.t) (recs : list Subnet.t) :
  Forall2 (fun q r => exists s,
             r = subnetInfo s (Req.prefix q) (Req.requested q)) reqs recs ->
  Forall Resolved reqs ->
  totalAllocated recs = sumBlocks reqs.
Proof.
  induction 1 as [|q r reqs recs [s ->] F2 IH]; intros F; [reflexivity|].
  inversion F as [|? ? Rq F']; subst.
  rewrite sumBlocks_cons. unfold totalAllocated in *. cbn [map fold_right].
  rewrite (IH F').
  destruct (subnetInfo_fields s (Req.prefix q) (Req.requested q))
    as (_ & _ & -> & _).
  destruct Rq as (_ & _ & -> & _). reflexivity.
Qed.

(** X22.  A successful allocation returns exactly one record per host
    requirement, and with a primary of numeric prefix p the records together
    take at most the 2^(32-p) addresses of the primary. *)
Theorem allocateVlsm_count_and_size
        (cidr : string) (hosts : list num) (recs : list Subnet.t) :
  allocateVlsm cidr hosts = Ok recs ->
  List.length recs = List.length hosts
  /\ forall pr p, parseCidr cidr = Ok pr -> Cidr.prefix pr = Num p ->
                  totalAllocated recs <= 2 ^ (32 - p).
Proof.
  intros H.
  destruct (allocateVlsm_inv _ _ _ H) as (pr0 & resolved & P & M & G & L & _).
  apply mapM_resolve in M as [Eh F].
  destruct (sorted_resolved _ F) as [Fs _].
  pose proof (placeAll_records _ _ _ _ _ L) as F2.
  split.
  - rewrite <- (Forall2_length F2), Eh, length_map.
    apply Permutation_length, sort_perm.
  - intros pr p P' Ep. rewrite P in P'. injection P' as <-.
    destruct (parseCidr_shape _ _ P) as [(p' & Ep' & Hp & Et & _) | (Ep' & _)];
      [|congruence].
    rewrite Ep in Ep'. injection Ep' as <-.
    rewrite Et in G. unfold gt, lt in G. apply Z.ltb_ge in G.
    now rewrite (totalAllocated_sumBlocks _ _ F2 Fs).
Qed.

Lemma allocateVlsm_count_and_size_witness :
  allocateVlsm "192.168.0.0/24" [Num 50; Num 20; Num 10] = Ok scenarioA
  /\ List.length scenarioA = List.length [Num 50; Num 20; Num 10]
  /\ forall pr p, parseCidr "192.168.0.0/24" = Ok pr -> Cidr.prefix pr = Num p ->
                  totalAllocated scenarioA <= 2 ^ (32 - p).
Proof.
  split; [vm_compute; reflexivity|].
  apply (allocateVlsm_count_and_size
           "192.168.0.0/24" [Num 50; Num 20; Num 10] scenarioA).
  vm_compute; reflexivity.
Defined.

(** ** Mask fields and the overlap verification *)

Lemma subnetInfo_mask_fields (s p h : Z) :
  Subnet.subnet_mask (subnetInfo s p h) = maskFromPrefix p
  /\ Subnet.wildcard_mask (subnetInfo s p h) = wildcardFromPrefix p.
Proof.
  unfold subnetInfo.
  destruct (p =? 32); [|destruct (p =? 31)]; split; reflexivity.
Qed.

Lemma mask_values (p : Z) :
  0 <= p <= 32 ->
  ipToInt (maskFromPrefix p) = two32 - 2 ^ (32 - p)
  /\ ipToInt (wildcardFromPrefix p) = 2 ^ (32 - p) - 1.
Proof.
  intros H.
  assert (A : forallb (fun n => maskClosedForm (Z.of_nat n)) (seq 0 33) = true)
    by (vm_compute; reflexivity).
  rewrite forallb_forall in A. specialize (A (Z.to_nat p)).
  rewrite Z2Nat.id in A by lia.
  assert (I : In (Z.to_nat p) (seq 0 33)) by (apply in_seq; lia).
  apply A in I. unfold maskClosedForm in I.
  apply andb_true_iff in I as [I1 I2]. apply Z.eqb_eq in I1, I2.
  unfold maskFromPrefix, wildcardFromPrefix.
  pose proof (pow2_block_bounds p H) as B.
  rewrite !ipToInt_intToIp by (unfold two32 in *; lia). split; assumption.
Qed.

(** X27.  The mask fields of every record of a successful allocation agree
    with its range: the subnet mask is 2^32 minus the block size, the
    wildcard is the block size minus one, the network address has none of
    the wildcard's bits, and the broadcast text denotes the network address
    with all of them set, the last address of the block. *)
Theorem allocateVlsm_record_masks
        (cidr : string) (hosts : list num) (recs : list Subnet.t) :
  allocateVlsm cidr hosts = Ok recs ->
  forall r, In r recs ->
    ipToInt (Subnet.subnet_mask r) = 4294967296 - Subnet.total_addresses r
    /\ ipToInt (Subnet.wildcard_mask r) = Subnet.total_addresses r - 1
    /\ Z.land (rangeStart r) (ipToInt (Subnet.wildcard_mask r)) = 0
    /\ Z.lor (rangeStart r) (ipToInt (Subnet.wildcard_mask r)) = rangeEnd r
    /\ ipToInt (Subnet.broadcast r) = rangeEnd r.
Proof.
  intros H.
  destruct (allocateVlsm_inv _ _ _ H) as (pr & resolved & _ & M & _ & L & _).
  apply mapM_resolve in M as [_ F].
  destruct (sorted_resolved _ F) as [Fs _].
  pose proof (placeAll_aligned _ _ _ Fs _ _ L) as A.
  apply Forall_forall.
  eapply Forall2_Forall_r; [|exact A|exact Fs].
  intros q r (s & -> & Rs & Ds) (_ & Rp & _). cbv beta.
  destruct (subnetInfo_fields s (Req.prefix q) (Req.requested q))
    as (Fn & _ & Ft & _).
  destruct (subnetInfo_mask_fields s (Req.prefix q) (Req.requested q))
    as [Fm Fw].
  destruct (mask_values _ Rp) as [Vm Vw].
  pose proof (pow2_block_bounds _ Rp) as Bt.
  assert (Fit : s + 2 ^ (32 - Req.prefix q) <= two32)
    by (apply aligned_block_fits; try assumption; try lia;
        now apply pow2_block_divide_two32).
  destruct (subnetInfo_addresses_hold s (Req.prefix q) (Req.requested q) Rp
              ltac:(lia) Fit) as (_ & Fb & _).
  cbv zeta in Fb.
  unfold rangeEnd, rangeStart.
  rewrite Fn, Ft, Fm, Fw, Vm, Vw, Fb, ipToInt_intToIp by assumption.
  change two32 with 4294967296.
  assert (La : Z.land s (2 ^ (32 - Req.prefix q) - 1) = 0).
  { change (2 ^ (32 - Req.prefix q) - 1) with (Z.pred (2 ^ (32 - Req.prefix q))).
    rewrite <- Z.ones_equiv, Z.land_ones by lia.
    apply Z.mod_divide; [lia | exact Ds]. }
  repeat split; try reflexivity; try exact La.
  pose proof (Z.add_lor_land s (2 ^ (32 - Req.prefix q) - 1)) as E.
  rewrite La in E. lia.
Qed.

Lemma allocateVlsm_record_masks_witness :
  allocateVlsm "192.168.0.0/24" [Num 50; Num 20; Num 10] = Ok scenarioA
  /\ forall r, In r scenarioA ->
       ipToInt (Subnet.subnet_mask r) = 4294967296 - Subnet.total_addresses r
       /\ ipToInt (Subnet.wildcard_mask r) = Subnet.total_addresses r - 1
       /\ Z.land (rangeStart r) (ipToInt (Subnet.wildcard_mask r)) = 0
       /\ Z.lor (rangeStart r) (ipToInt (Subnet.wildcard_mask r)) = rangeEnd r
       /\ ipToInt (Subnet.broadcast r) = rangeEnd r.
Proof.
  split; [vm_compute; reflexivity|].
  apply (allocateVlsm_record_masks
           "192.168.0.0/24" [Num 50; Num 20; Num 10] scenarioA).
  vm_compute; reflexivity.
Defined.

Lemma checkAgainst_iff (a : Subnet.t) (later : list Subnet.t) :
  checkAgainst a later = Ok tt <->
  Forall (fun b => rangeEnd a < rangeStart b \/ rangeEnd b < rangeStart a) later.
Proof.
  induction later as [|b later IH]; cbn [checkAgainst].
  - split; [constructor | reflexivity].
  - cbv zeta. fold (rangeStart a) (rangeStart b).
    fold (rangeEnd a) (rangeEnd b).
    destruct (Z.ltb_spec (rangeEnd a) (rangeStart b)) as [H1|H1];
      [|destruct (Z.ltb_spec (rangeEnd b) (rangeStart a)) as [H2|H2]];
      cbn [orb negb].
    + rewrite IH. split; [intros F; constructor; [now left | exact F]|].
      intros F. now inversion F.
    + rewrite IH. split; [intros F; constructor; [now right | exact F]|].
      intros F. now inversion F.
    + split; [discriminate|]. intros F. inversion F; subst. lia.
Qed.

(** The verification passes exactly when the loop's test holds of every
    ordered pair of records. *)
Lemma verifyNoOverlaps_pairs (recs : list Subnet.t) :
  verifyNoOverlaps recs = Ok tt <->
  ForallOrdPairs (fun a b => rangeEnd a < rangeStart b \/ rangeEnd b < rangeStart a)
                 recs.
Proof.
  induction recs as [|a later IH]; cbn [verifyNoOverlaps].
  - split; [constructor | reflexivity].
  - destruct (checkAgainst a later) as [[]|e] eqn:C; cbn [bind].
    + rewrite IH. apply checkAgainst_iff in C.
      split; [intros F; now constructor|]. intros F. now inversion F.
    + split; [discriminate|]. intros F. inversion F as [|? ? Fa _]; subst.
      apply checkAgainst_iff in Fa. congruence.
Qed.

Lemma ForallOrdPairs_nth_error {A : Type} (R : A -> A -> Prop) (l : list A) :
  ForallOrdPairs R l <->
  forall (i j : nat) (a b : A),
    (i < j)%nat -> nth_error l i = Some a -> nth_error l j = Some b -> R a b.
Proof.
  induction l as [|x l IH].
  - split; [|constructor]. intros _ [|i] j a b _ Ha; discriminate.
  - split.
    + intros F. inversion F as [|? ? Fx Fl]; subst.
      intros i j a b Hij Ha Hb. destruct j as [|j]; [lia|]. cbn in Hb.
      destruct i as [|i]; cbn in Ha.
      * injection Ha as <-. rewrite Forall_forall in Fx.
        eapply Fx, nth_error_In; eassumption.
      * eapply (proj1 IH Fl i j); [lia | eassumption | eassumption].
    + intros H. constructor.
      * apply Forall_forall. intros y Hy.
        destruct (In_nth_error _ _ Hy) as [j Hj].
        apply (H O (S j) x y); [lia | reflexivity | exact Hj].
      * apply IH. intros i j a b Hij Ha Hb.
        apply (H (S i) (S j) a b); [lia | exact Ha | exact Hb].
Qed.

(** Two non-empty ranges share no address exactly when one ends before the
    other starts. *)
Lemma ranges_apart_iff (a b : Subnet.t) :
  0 < Subnet.total_addresses a -> 0 < Subnet.total_addresses b ->
  (rangeEnd a < rangeStart b \/ rangeEnd b < rangeStart a)
  <-> forall x, ~ (inRange x a /\ inRange x b).
Proof.
  unfold inRange, rangeEnd. intros Ha Hb. split.
  - intros H x. lia.
  - intros H.
    destruct (Z.lt_ge_cases (rangeStart a + Subnet.total_addresses a - 1)
                            (rangeStart b)) as [|G1]; [now left|].
    destruct (Z.lt_ge_cases (rangeStart b + Subnet.total_addresses b - 1)
                            (rangeStart a)) as [|G2]; [now right|].
    exfalso. apply (H (Z.max (rangeStart a) (rangeStart b))). lia.
Qed.

(** X28.  On records that each hold at least one address, the overlap
    verification at the end of [allocateVlsm] decides overlap exactly: it
    passes if and only if no address lies in the ranges
    [network, network + total_addresses - 1] of two different records of
    the list. *)
Theorem verifyNoOverlaps_iff_no_shared_address (recs : list Subnet.t) :
  Forall (fun r => 0 < Subnet.total_addresses r) recs ->
  (verifyNoOverlaps recs = Ok tt <->
   forall (i j : nat) (a b : Subnet.t),
     i <> j -> nth_error recs i = Some a -> nth_error recs j = Some b ->
     forall x, ~ (inRange x a /\ inRange x b)).
Proof.
  intros F. rewrite Forall_forall in F.
  rewrite verifyNoOverlaps_pairs, ForallOrdPairs_nth_error. split.
  - intros H i j a b Hij Ha Hb.
    pose proof (F a (nth_error_In _ _ Ha)) as Ta.
    pose proof (F b (nth_error_In _ _ Hb)) as Tb.
    destruct (Nat.lt_total i j) as [Hlt | [Heq | Hgt]]; [|lia|].
    + apply (ranges_apart_iff a b Ta Tb). exact (H i j a b Hlt Ha Hb).
    + intros x [Xa Xb].
      apply (proj1 (ranges_apart_iff b a Tb Ta) (H j i b a Hgt Hb Ha) x).
      split; assumption.
  - intros H i j a b Hij Ha Hb.
    apply (ranges_apart_iff a b (F a (nth_error_In _ _ Ha))
                            (F b (nth_error_In _ _ Hb))).
    apply (H i j a b); [lia | exact Ha | exact Hb].
Qed.

Lemma verifyNoOverlaps_iff_no_shared_address_witness :
  Forall (fun r => 0 < Subnet.total_addresses r) scenarioA
  /\ (verifyNoOverlaps scenarioA = Ok tt <->
      forall (i j : nat) (a b : Subnet.t),
        i <> j -> nth_error scenarioA i = Some a -> nth_error scenarioA j = Some b ->
        forall x, ~ (inRange x a /\ inRange x b)).
Proof.
  assert (F : Forall (fun r => 0 < Subnet.total_addresses r) scenarioA)
    by (repeat constructor).
  split; [exact F|]. apply (verifyNoOverlaps_iff_no_shared_address scenarioA F).
Defined.

(** ** The calculator component with a free-text requirements field *)

Lemma splitRuns_nonempty (f : bool) (s : string) : splitRuns f s <> [].
Proof.
  revert f. induction s as [|c s IH]; intros f; cbn [splitRuns]; [discriminate|].
  destruct (isSeparator c).
  - destruct f; [apply IH | discriminate].
  - destruct (splitRuns false s); discriminate.
Qed.

Lemma splitRuns_separatorFree (f : bool) (s : string) :
  Forall (fun t => separatorFree t = true) (splitRuns f s).
Proof.
  revert f. induction s as [|c s IH]; intros f; cbn [splitRuns].
  - repeat constructor.
  - destruct (isSeparator c) eqn:E.
    + destruct f; [apply IH | constructor; [reflexivity | apply IH]].
    + specialize (IH false). destruct (splitRuns false s) as [|hd tl].
      * repeat constructor. cbn. now rewrite E.
      * inversion IH; subst. constructor; [|assumption].
        cbn [separatorFree]. now rewrite E.
Qed.

Lemma isWhiteSpace_isSeparator (c : ascii) :
  isSeparator c = false -> isWhiteSpace c = false.
Proof. unfold isSeparator. intros H. now apply orb_false_iff in H. Qed.

Lemma trim_separatorFree (t : string) : separatorFree t = true -> trim t = t.
Proof.
  intros H. unfold trim.
  assert (E : trimStart t = t).
  { destruct t as [|c t]; [reflexivity|]. cbn in *.
    apply andb_true_iff in H as [H _]. apply negb_true_iff in H.
    now rewrite (isWhiteSpace_isSeparator _ H). }
  rewrite E. clear E. induction t as [|c t IH]; [reflexivity|].
  cbn in *. apply andb_true_iff in H as [Hc Ht]. apply negb_true_iff in Hc.
  rewrite (IH Ht), (isWhiteSpace_isSeparator _ Hc). now destruct t.
Qed.

(** The tokens that reach [parseInt]: the non-empty pieces of the split. *)
Lemma parseHostsInput_tokens (input : string) :
  parseHostsInput input = map parseInt (filter truthy (splitRuns false input)).
Proof.
  unfold parseHostsInput. do 2 f_equal.
  pose proof (splitRuns_separatorFree false input) as F.
  induction F as [|t l Ht _ IH]; [reflexivity|].
  cbn [map]. now rewrite (trim_separatorFree t Ht), IH.
Qed.

Lemma filter_splitRuns_flag (s : string) :
  filter truthy (splitRuns true s) = filter truthy (splitRuns false s).
Proof.
  destruct s as [|c s]; [reflexivity|]. cbn [splitRuns].
  destruct (isSeparator c); reflexivity.
Qed.

Lemma splitRuns_head_app (a b : string) (sep : ascii) :
  isSeparator sep = true ->
  hd EmptyString (splitRuns false (a ++ String sep b))
  = hd EmptyString (splitRuns false a).
Proof.
  intros Hs. induction a as [|c a IH]; cbn [append splitRuns].
  - now rewrite Hs.
  - destruct (isSeparator c); [reflexivity|].
    pose proof (splitRuns_nonempty false (a ++ String sep b)) as N1.
    pose proof (splitRuns_nonempty false a) as N2.
    destruct (splitRuns false (a ++ String sep b)) as [|h1 t1]; [contradiction|].
    destruct (splitRuns false a) as [|h2 t2]; [contradiction|].
    cbn [hd] in *. now rewrite IH.
Qed.

Lemma filter_splitRuns_app (a b : string) (sep : ascii) (f : bool) :
  isSeparator sep = true ->
  filter truthy (splitRuns f (a ++ String sep b))
  = (filter truthy (splitRuns f a) ++ filter truthy (splitRuns false b))%list.
Proof.
  intros Hs. revert f. induction a as [|c a IH]; intros f; cbn [append splitRuns].
  - rewrite Hs. destruct f; cbn [filter truthy app]; apply filter_splitRuns_flag.
  - destruct (isSeparator c) eqn:Ec.
    + destruct f; cbn [filter truthy]; apply IH.
    + pose proof (splitRuns_head_app a b sep Hs) as Hh.
      specialize (IH false).
      pose proof (splitRuns_nonempty false (a ++ String sep b)) as N1.
      pose proof (splitRuns_nonempty false a) as N2.
      destruct (splitRuns false (a ++ String sep b)) as [|h1 t1]; [contradiction|].
      destruct (splitRuns false a) as [|h2 t2]; [contradiction|].
      cbn [hd] in Hh. subst h2. cbn [filter truthy app] in *.
      f_equal. destruct h1; cbn [truthy] in IH; [exact IH|].
      cbn [app] in IH. now injection IH.
Qed.

Lemma splitRuns_token (t : string) :
  separatorFree t = true -> splitRuns false t = [t].
Proof.
  induction t as [|c t IH]; cbn [separatorFree splitRuns]; [reflexivity|].
  intros H. apply andb_true_iff in H as [Hc Ht]. apply negb_true_iff in Hc.
  now rewrite Hc, (IH Ht).
Qed.

(** X23.  [parseHostsInput] reads the text token by token: a separator
    (comma or white space) anywhere cuts the text in two parts that are read
    independently, so repeated, mixed, leading and trailing separators add
    nothing; the empty text gives no requirement. *)
Theorem parseHostsInput_splits_at_separators (a b : string) (sep : ascii) :
  isSeparator sep = true ->
  parseHostsInput (a ++ String sep b) = (parseHostsInput a ++ parseHostsInput b)%list
  /\ parseHostsInput EmptyString = [].
Proof.
  intros Hs. split; [|reflexivity].
  rewrite !parseHostsInput_tokens, (filter_splitRuns_app a b sep false Hs).
  apply map_app.
Qed.

Lemma parseHostsInput_splits_at_separators_witness :
  isSeparator "," = true
  /\ parseHostsInput ("50 20" ++ String "," " 10")
     = (parseHostsInput "50 20" ++ parseHostsInput " 10")%list
  /\ parseHostsInput EmptyString = [].
Proof.
  split; [reflexivity|].
  apply (parseHostsInput_splits_at_separators "50 20" " 10" ","). reflexivity.
Defined.

(** X24.  A non-empty token without separators is handed to [parseInt] as
    it is: [parseHostsInput] returns the one Number that [parseInt] makes of
    it, NaN included. *)
Theorem parseHostsInput_single_token (t : string) :
  t <> EmptyString -> separatorFree t = true ->
  parseHostsInput t = [parseInt t].
Proof.
  intros Hne Hf. rewrite parseHostsInput_tokens, (splitRuns_token t Hf).
  destruct t; [contradiction | reflexivity].
Qed.

Lemma parseHostsInput_single_token_witness :
  "12abc" <> EmptyString /\ separatorFree "12abc" = true
  /\ parseHostsInput "12abc" = [parseInt "12abc"].
Proof.
  assert (N : "12abc" <> EmptyString) by discriminate.
  split; [exact N|]. split; [reflexivity|].
  apply (parseHostsInput_single_token "12abc" N). reflexivity.
Defined.

Lemma parseHostsInput_blank (s : string) :
  separatorsOnly s = true -> parseHostsInput s = [].
Proof.
  rewrite parseHostsInput_tokens. intros H.
  assert (G : forall f, filter truthy (splitRuns f s) = []).
  { induction s as [|c s IH]; intros f; cbn [splitRuns]; [reflexivity|].
    cbn in H. apply andb_true_iff in H as [Hc Hr]. rewrite Hc.
    destruct f; cbn [filter truthy]; apply (IH Hr). }
  now rewrite G.
Qed.

(** X25.  [onCalculate] on a requirements text that holds nothing but
    separators (or nothing at all) reports 'Provide at least one host
    requirement' and shows no allocation, whatever the primary text is: the
    primary is not even parsed. *)
Theorem onCalculate_blank_requirements (primary hostsText : string) :
  separatorsOnly hostsText = true ->
  HostsText.onCalculate primary hostsText
  = HostsText.mkView (Some HostsText.ProvideAtLeastOne) None.
Proof.
  intros H. unfold HostsText.onCalculate.
  now rewrite (parseHostsInput_blank _ H).
Qed.

Lemma onCalculate_blank_requirements_witness :
  separatorsOnly " , " = true
  /\ HostsText.onCalculate "not a cidr" " , "
     = HostsText.mkView (Some HostsText.ProvideAtLeastOne) None.
Proof.
  split; [reflexivity|].
  apply (onCalculate_blank_requirements "not a cidr" " , "). reflexivity.
Defined.

(** X26.  [onCalculate] shows an allocation only when the requirements text
    holds at least one token and [parseInt] reads every token as an integer
    between 1 and 2^32 - 2; the allocation shown is that of [allocateVlsm]
    on these integers, and no error is set. *)
Theorem onCalculate_shows_allocation_only_for_valid_tokens
        (primary hostsText : string) (recs : list Subnet.t) :
  HostsText.allocs (HostsText.onCalculate primary hostsText) = Some recs ->
  parseHostsInput hostsText <> []
  /\ Forall (fun h => exists z, h = Num z /\ 1 <= z <= 4294967294)
            (parseHostsInput hostsText)
  /\ allocateVlsm primary (parseHostsInput hostsText) = Ok recs
  /\ HostsText.error (HostsText.onCalculate primary hostsText) = None.
Proof.
  unfold HostsText.onCalculate. cbv zeta.
  destruct (parseHostsInput hostsText) as [|h hs] eqn:E; [discriminate|].
  cbn [List.length Nat.eqb].
  destruct (allocateVlsm primary (h :: hs)) as [res|e] eqn:A;
    cbn [HostsText.allocs HostsText.error]; [|discriminate].
  intros [= <-]. split; [discriminate|].
  split; [|split; reflexivity].
  destruct (allocateVlsm_records _ _ _ A) as (reqs & Pm & F & _).
  eapply Permutation_Forall; [exact Pm|].
  apply Forall_map. eapply Forall_impl; [|exact F].
  intros r (Hpos & Rp & _ & Hc & _). exists (Req.requested r).
  split; [reflexivity|]. pose proof (capacity_max _ Rp). lia.
Qed.

Lemma onCalculate_shows_allocation_only_for_valid_tokens_witness :
  HostsText.allocs (HostsText.onCalculate "192.168.0.0/24" "50 20 10")
  = Some scenarioA
  /\ parseHostsInput "50 20 10" <> []
  /\ Forall (fun h => exists z, h = Num z /\ 1 <= z <= 4294967294)
            (parseHostsInput "50 20 10")
  /\ allocateVlsm "192.168.0.0/24" (parseHostsInput "50 20 10") = Ok scenarioA
  /\ HostsText.error (HostsText.onCalculate "192.168.0.0/24" "50 20 10") = None.
Proof.
  split; [vm_compute; reflexivity|].
  apply (onCalculate_shows_allocation_only_for_valid_tokens
           "192.168.0.0/24" "50 20 10" scenarioA).
  vm_compute; reflexivity.
Defined.

(** ** The calculator component with named requirements *)

Lemma validate_inr (h : NamedHosts.entry) (n : num) :
  NamedHosts.validate h = inr n ->
  exists z, n = Num z /\ NamedHosts.validRow h z.
Proof.
  unfold NamedHosts.validate, NamedHosts.validRow.
  destruct (truthy (NamedHosts.name h)); cbn [negb orb]; [|discriminate].
  destruct (trim (NamedHosts.name h)) as [|c t] eqn:T; cbn [String.length Nat.eqb];
    [discriminate|].
  destruct (NamedHosts.hosts h) as [|[z|]]; try discriminate.
  destruct (Z.leb_spec z 0); [discriminate|].
  intros [= <-]. exists z. repeat split; try reflexivity; try lia. discriminate.
Qed.

Lemma validateAll_inr (hs : list NamedHosts.entry) (ns : list num) :
  NamedHosts.validateAll hs = inr ns ->
  ns = map (fun h => Num (NamedHosts.hostCount h)) hs
  /\ Forall (fun h => NamedHosts.validRow h (NamedHosts.hostCount h)) hs.
Proof.
  revert ns. induction hs as [|h hs IH]; intros ns; cbn [NamedHosts.validateAll].
  - intros [= <-]. split; [reflexivity | constructor].
  - destruct (NamedHosts.validate h) as [f|n] eqn:V; [discriminate|].
    destruct (NamedHosts.validateAll hs) as [f|ns'] eqn:A; [discriminate|].
    intros [= <-]. destruct (IH ns' eq_refl) as [-> F].
    apply validate_inr in V as (z & -> & R).
    assert (E : NamedHosts.hostCount h = z).
    { unfold NamedHosts.hostCount. destruct R as (_ & -> & _). reflexivity. }
    cbn [map]. rewrite E. split; [reflexivity|]. constructor; [|exact F].
    rewrite E. exact R.
Qed.

(** [findIndex] finds the first row of a wanted host count when there is
    one, and [removeAt] then takes exactly that row out. *)
Lemma findIndex_sameHosts (k : Z) (remaining : list NamedHosts.entry) :
  Forall (fun h => NamedHosts.validRow h (NamedHosts.hostCount h)) remaining ->
  In k (map NamedHosts.hostCount remaining) ->
  exists idx l1 e l2,
    NamedHosts.findIndex (NamedHosts.sameHosts k) remaining = Some idx
    /\ remaining = (l1 ++ e :: l2)%list
    /\ nth idx remaining (NamedHosts.mkEntry EmptyString NamedHosts.Blank) = e
    /\ NamedHosts.hostCount e = k
    /\ NamedHosts.removeAt idx remaining = (l1 ++ l2)%list.
Proof.
  induction 1 as [|h rest Rh F IH]; cbn [map In]; [contradiction|].
  intros I. cbn [NamedHosts.findIndex].
  destruct (NamedHosts.sameHosts k h) eqn:Sh.
  - exists O, [], h, rest. repeat split.
    unfold NamedHosts.sameHosts, NamedHosts.hostCount in *.
    destruct (NamedHosts.hosts h) as [|[z|]]; try discriminate.
    now apply Z.eqb_eq in Sh.
  - assert (Ik : In k (map NamedHosts.hostCount rest)).
    { destruct I as [E | I]; [|exact I]. exfalso.
      unfold NamedHosts.sameHosts, NamedHosts.hostCount in *.
      destruct Rh as (_ & Eh & _). rewrite Eh in *.
      rewrite E, Z.eqb_refl in Sh. discriminate. }
    destruct (IH Ik) as (idx & l1 & e & l2 & -> & -> & En & Ek & Er).
    exists (S idx), (h :: l1), e, l2. cbn [nth NamedHosts.removeAt app].
    repeat split; try assumption. now rewrite Er.
Qed.

(** The name attachment hands out every row name exactly once, to a record
    of that row's host count, and leaves the records as they are. *)
Lemma attachNames_pairs (res : list Subnet.t) :
  forall remaining : list NamedHosts.entry,
    Forall (fun h => NamedHosts.validRow h (NamedHosts.hostCount h)) remaining ->
    Permutation (map Subnet.requested_hosts res)
                (map NamedHosts.hostCount remaining) ->
    map NamedHosts.record (NamedHosts.attachNames remaining res) = res
    /\ Permutation (map NamedHosts.namedPair (NamedHosts.attachNames remaining res))
                   (map NamedHosts.rowPair remaining).
Proof.
  induction res as [|r rest IH]; intros remaining F Pm; cbn [map] in Pm.
  - apply Permutation_nil in Pm. destruct remaining; [|discriminate].
    split; [reflexivity | constructor].
  - assert (I : In (Subnet.requested_hosts r)
                   (map NamedHosts.hostCount remaining))
      by (eapply Permutation_in; [exact Pm | now left]).
    destruct (findIndex_sameHosts _ _ F I)
      as (idx & l1 & e & l2 & Ef & -> & En & Ek & Er).
    cbn [NamedHosts.attachNames]. rewrite Ef, En, Er.
    assert (F' : Forall (fun h => NamedHosts.validRow h (NamedHosts.hostCount h))
                        (l1 ++ l2)).
    { apply Forall_app in F as [F1 F2]. inversion F2; subst.
      apply Forall_app. split; assumption. }
    assert (Pm' : Permutation (map Subnet.requested_hosts rest)
                              (map NamedHosts.hostCount (l1 ++ l2))).
    { rewrite map_app in *. cbn [map] in Pm. rewrite Ek in Pm.
      eapply Permutation_cons_app_inv. exact Pm. }
    destruct (IH _ F' Pm') as [Erec Pp].
    cbn [map NamedHosts.record]. rewrite Erec. split; [reflexivity|].
    rewrite !map_app in *. cbn [map].
    assert (Ep : NamedHosts.namedPair (NamedHosts.mkNamed r (NamedHosts.name e))
                 = NamedHosts.rowPair e)
      by (unfold NamedHosts.namedPair, NamedHosts.rowPair; cbn; now rewrite Ek).
    rewrite Ep. apply Permutation_cons_app. exact Pp.
Qed.

Lemma requested_hosts_perm (cidr : string) (ns : list num) (res : list Subnet.t) :
  allocateVlsm cidr ns = Ok res ->
  Permutation (map Subnet.requested_hosts res) (map numValue ns).
Proof.
  intros H.
  destruct (allocateVlsm_records _ _ _ H) as (reqs & Pm & _ & _ & _ & F2).
  apply (Permutation_map numValue) in Pm. rewrite map_map in Pm.
  cbn [numValue] in Pm. rewrite <- Pm.
  assert (E : map Subnet.requested_hosts res = map Req.requested reqs).
  { apply (Forall2_map_eq _ Req.requested Subnet.requested_hosts) in F2;
      [exact F2|].
    intros q r [s ->].
    destruct (subnetInfo_fields s (Req.prefix q) (Req.requested q))
      as (_ & _ & _ & _ & -> & _). reflexivity. }
  rewrite E. reflexivity.
Qed.

(** X29.  When [onCalculate] of the component with named requirements shows
    an allocation, the records are those of [allocateVlsm] in their order,
    and the names are attached one to one: every row's name labels exactly
    one record, a record requested for that row's host count.  (Rows of
    equal host count receive their names in row order.) *)
Theorem onCalculate_attaches_every_name_once
        (primary : string) (hosts : list NamedHosts.entry)
        (shown : list NamedHosts.named) :
  NamedHosts.allocs (NamedHosts.onCalculate primary hosts) = Some shown ->
  allocateVlsm primary (map (fun h => Num (NamedHosts.hostCount h)) hosts)
  = Ok (map NamedHosts.record shown)
  /\ Permutation (map NamedHosts.namedPair shown) (map NamedHosts.rowPair hosts)
  /\ Forall (fun n => trim (NamedHosts.label n) <> EmptyString) shown.
Proof.
  unfold NamedHosts.onCalculate.
  destruct (parseCidr primary) as [pr|e]; [|discriminate].
  destruct (Nat.eqb (List.length hosts) 0); [discriminate|].
  destruct (NamedHosts.validateAll hosts) as [f|ns] eqn:V; [discriminate|].
  destruct (allocateVlsm primary ns) as [res|e] eqn:A; [|discriminate].
  cbn [NamedHosts.allocs]. intros [= <-].
  apply validateAll_inr in V as [-> F].
  pose proof (requested_hosts_perm _ _ _ A) as Pm.
  rewrite map_map in Pm. cbn [numValue] in Pm.
  destruct (attachNames_pairs res hosts F Pm) as [Er Pp].
  rewrite Er. split; [exact A|]. split; [exact Pp|].
  assert (Fn : Forall (fun p => trim (fst p) <> EmptyString)
                      (map NamedHosts.rowPair hosts)).
  { apply Forall_map. eapply Forall_impl; [|exact F].
    intros h (Hn & _). exact Hn. }
  apply (Permutation_Forall (Permutation_sym Pp)) in Fn.
  rewrite Forall_map in Fn. exact Fn.
Qed.

Lemma onCalculate_attaches_every_name_once_witness :
  let hosts := [NamedHosts.mkEntry "lab" (NamedHosts.Value 20);
                NamedHosts.mkEntry "office" (NamedHosts.Value 50)] in
  let shown := [NamedHosts.mkNamed (subnetInfo 3232235520 26 50) "office";
                NamedHosts.mkNamed (subnetInfo 3232235584 27 20) "lab"] in
  NamedHosts.allocs (NamedHosts.onCalculate "192.168.0.0/24" hosts) = Some shown
  /\ allocateVlsm "192.168.0.0/24"
                  (map (fun h => Num (NamedHosts.hostCount h)) hosts)
     = Ok (map NamedHosts.record shown)
  /\ Permutation (map NamedHosts.namedPair shown) (map NamedHosts.rowPair hosts)
  /\ Forall (fun n => trim (NamedHosts.label n) <> EmptyString) shown.
Proof.
  cbv zeta. split; [vm_compute; reflexivity|].
  apply (onCalculate_attaches_every_name_once "192.168.0.0/24"
           [NamedHosts.mkEntry "lab" (NamedHosts.Value 20);
            NamedHosts.mkEntry "office" (NamedHosts.Value 50)]
           [NamedHosts.mkNamed (subnetInfo 3232235520 26 50) "office";
            NamedHosts.mkNamed (subnetInfo 3232235584 27 20) "lab"]).
  vm_compute; reflexivity.
Defined.

Lemma validateAll_inl (hs : list NamedHosts.entry) (f : NamedHosts.failure) :
  NamedHosts.validateAll hs = inl f ->
  f = NamedHosts.NameMissing \/ f = NamedHosts.EmptyHostEntry
  \/ f = NamedHosts.NotPositiveInteger.
Proof.
  induction hs as [|h hs IH]; cbn [NamedHosts.validateAll]; [discriminate|].
  destruct (NamedHosts.validate h) as [f'|n] eqn:V.
  - intros [= <-]. unfold NamedHosts.validate in V.
    destruct (_ || _); [injection V as <-; auto|].
    destruct (NamedHosts.hosts h) as [|[z|]];
      [injection V as <-; auto | | injection V as <-; auto].
    destruct (z <=? 0); [injection V as <-; auto | discriminate].
  - destruct (NamedHosts.validateAll hs) as [f'|ns]; [|discriminate].
    intros [= <-]. now apply IH.
Qed.

Lemma mapM_resolve_positive (ns : list num) (e : error) :
  Forall (fun n => exists z, n = Num z /\ 0 < z) ns ->
  mapM resolve ns = Err e -> e = E_CannotSatisfy.
Proof.
  induction 1 as [|n ns (z & -> & Hz) _ IH]; cbn [mapM]; [discriminate|].
  destruct (resolve z) as [r|e'] eqn:R; cbn [bind].
  - destruct (mapM resolve ns) as [rs|e'']; cbn [bind]; [discriminate|].
    intros [= <-]. now apply IH.
  - intros [= <-]. cbn [resolve] in R.
    destruct (Z.leb_spec z 0); [lia|].
    destruct (resolve_error_kinds z e') as [-> | ->]; try reflexivity.
    + cbn [resolve]. destruct (Z.leb_spec z 0); [lia | exact R].
    + exfalso. cbn [calcMinPrefixForHosts] in R.
      destruct (Z.ltb_spec z 0); [lia|]. destruct (Z.eqb_spec z 0); [lia|].
      destruct (scanPrefixes 32 z) as [p|e3] eqn:S; cbn [bind] in R;
        [discriminate|].
      apply scanPrefixes_err in S as [-> _]. discriminate.
Qed.

(** X30.  The errors that [onCalculate] of the component with named
    requirements can show: one of its own four messages, or an error thrown
    by the parser or the allocator, which is then 'Invalid CIDR', 'Invalid
    prefix', 'cannot satisfy host count', 'Requirements need ..' or 'Cannot
    allocate subnet ..'.  The allocator's own 'host requirements must be
    positive integers' is never shown: the rows are validated first. *)
Theorem onCalculate_named_error_kinds
        (primary : string) (hosts : list NamedHosts.entry)
        (f : NamedHosts.failure) :
  NamedHosts.error (NamedHosts.onCalculate primary hosts) = Some f ->
  f = NamedHosts.AddAtLeastOne
  \/ f = NamedHosts.NameMissing
  \/ f = NamedHosts.EmptyHostEntry
  \/ f = NamedHosts.NotPositiveInteger
  \/ exists e, f = NamedHosts.Thrown e
               /\ (e = E_InvalidCIDR
                   \/ e = E_InvalidPrefix
                   \/ e = E_CannotSatisfy
                   \/ (exists s t, e = E_RequirementsNeed s t)
                   \/ (exists a b c, e = E_CannotAllocate a b c)).
Proof.
  unfold NamedHosts.onCalculate.
  destruct (parseCidr primary) as [pr|e] eqn:P; cbn [NamedHosts.error].
  2:{ intros [= <-]. do 4 right. exists e. split; [reflexivity|].
      destruct (parseCidr_error_kinds _ _ P); auto. }
  destruct (Nat.eqb (List.length hosts) 0); cbn [NamedHosts.error].
  { intros [= <-]. now left. }
  destruct (NamedHosts.validateAll hosts) as [f'|ns] eqn:V; cbn [NamedHosts.error].
  { intros [= <-]. right. destruct (validateAll_inl _ _ V) as [-> | [-> | ->]]; auto. }
  destruct (allocateVlsm primary ns) as [res|e] eqn:A; cbn [NamedHosts.error];
    [discriminate|].
  intros [= <-]. do 4 right. exists e. split; [reflexivity|].
  apply validateAll_inr in V as [-> F].
  assert (Fp : Forall (fun n => exists z, n = Num z /\ 0 < z)
                      (map (fun h => Num (NamedHosts.hostCount h)) hosts)).
  { apply Forall_map. eapply Forall_impl; [|exact F].
    intros h (_ & _ & Hz). eexists. split; [reflexivity | exact Hz]. }
  revert A. unfold allocateVlsm. rewrite P. cbn [bind].
  destruct (mapM resolve _) as [resolved|e2] eqn:M; cbn [bind].
  2:{ intros [= <-]. rewrite (mapM_resolve_positive _ _ Fp M). auto. }
  fold (sumBlocks (sort compareReqs resolved)).
  destruct (gt _ (Cidr.total pr)) eqn:G.
  { intros [= <-]. do 3 right. left. do 2 eexists. reflexivity. }
  apply mapM_resolve in M as [_ Fr].
  pose proof (placement_outcome _ _ _ P Fr G) as O.
  destruct (placeAll _ _ _ _ []) as [recs|e3] eqn:L; cbn [bind].
  - pose proof (placement_layout primary pr resolved recs P Fr G L) as Lay.
    rewrite (verifyNoOverlaps_sorted _ (Contiguous_sorted _ _ _ Lay)).
    cbn [bind]. discriminate.
  - intros [= <-]. destruct O as [K _]. do 4 right. exact K.
Qed.

Lemma onCalculate_named_error_kinds_witness :
  let hosts := [NamedHosts.mkEntry "lab" (NamedHosts.Value 3)] in
  let f := NamedHosts.Thrown (E_RequirementsNeed 8 4) in
  NamedHosts.error (NamedHosts.onCalculate "192.168.1.0/30" hosts) = Some f
  /\ (f = NamedHosts.AddAtLeastOne
      \/ f = NamedHosts.NameMissing
      \/ f = NamedHosts.EmptyHostEntry
      \/ f = NamedHosts.NotPositiveInteger
      \/ exists e, f = NamedHosts.Thrown e
                   /\ (e = E_InvalidCIDR
                       \/ e = E_InvalidPrefix
                       \/ e = E_CannotSatisfy
                       \/ (exists s t, e = E_RequirementsNeed s t)
                       \/ (exists a b c, e = E_CannotAllocate a b c))).
Proof.
  cbv zeta. split; [vm_compute; reflexivity|].
  apply (onCalculate_named_error_kinds "192.168.1.0/30"
           [NamedHosts.mkEntry "lab" (NamedHosts.Value 3)]).
  vm_compute; reflexivity.
Defined.
